(** * Segmented virtual-timeline playback engine (MediaPlayerContext.jsx)

    A shallow embedding of [src/context/MediaPlayerContext.jsx]: the segment
    map builder, the virtual clock, the playback controller around the single
    [Audio] element, the seek engine, the playlist queue and the verse
    resolver, followed by the properties established about them.

    Conventions of the embedding.
    - A JavaScript number is a [number]: an exact rational or [NaN].  The
      rounding of IEEE doubles is not modelled, and the infinities are left
      out: timing files and media positions are finite, and the one literal
      [Infinity] of the source is an absent upper bound in [verseEnd_lt].
      The properties are chosen so that rounding keeps them: orderings, and
      equations between results of one and the same expression.
    - A JavaScript object is a finite map from property names to [value]s;
      a missing property reads as [VUndefined].
    - Coercions are exact on descriptors shaped as the callers build them
      (strings for [audioUrl] and [reference], an array of numbers under
      [timingData.timestamps]); a value of another type met where the source
      does arithmetic is read like [undefined].
    - The state is kept twice: as React holds it, with every update applied,
      and as the last render saw it, which is what a callback reads when it
      names [state]; the refs are read and written as they are.
    - The element keeps the address it was given and reports it resolved, as
      the [src] attribute does. *)

From Stdlib Require Import QArith Qround ZArith Lia Lqa Ascii.
From stdpp Require Import gmap strings list pretty.

Set Warnings "-register-all".
Local Open Scope string_scope.

(** ** JavaScript numbers and values *)

Inductive number : Type :=
| Fin (q : Q)
| NaN.

Inductive value : Type :=
| VUndefined
| VNull
| VNum (n : number)
| VStr (s : string)
| VArr (l : list value)
| VObj (o : gmap string value).

Abbreviation object := (gmap string value).

Module JS.

Definition add (a b : number) : number :=
  match a, b with
  | Fin x, Fin y => Fin (x + y)
  | _, _ => NaN
  end.

Definition sub (a b : number) : number :=
  match a, b with
  | Fin x, Fin y => Fin (x - y)
  | _, _ => NaN
  end.

(** [a < b], [a <= b], [a >= b]: false as soon as an operand is [NaN]. *)
Definition lt (a b : number) : bool :=
  match a, b with
  | Fin x, Fin y => negb (Qle_bool y x)
  | _, _ => false
  end.

Definition le (a b : number) : bool :=
  match a, b with
  | Fin x, Fin y => Qle_bool x y
  | _, _ => false
  end.

Definition ge (a b : number) : bool := le b a.

(** [Math.max(a, b)]. *)
Definition Math_max (a b : number) : number :=
  match a, b with
  | Fin x, Fin y => if Qle_bool x y then Fin y else Fin x
  | _, _ => NaN
  end.

Definition of_nat (n : nat) : number := Fin (inject_Z (Z.of_nat n)).

(** ToNumber, on the value types of the interface. *)
Definition to_number (v : value) : number :=
  match v with
  | VNum n => n
  | VNull => Fin 0
  | _ => NaN
  end.

(** ToBoolean. *)
Definition truthy (v : value) : bool :=
  match v with
  | VUndefined | VNull => false
  | VNum (Fin q) => negb (Qeq_bool q 0)
  | VNum NaN => false
  | VStr s => negb (String.eqb s "")
  | VArr _ | VObj _ => true
  end.

(** [a || b]. *)
Definition or (a b : value) : value := if truthy a then a else b.

(** [o.k] on an object. *)
Definition get (o : object) (k : string) : value :=
  default VUndefined (o !! k).

(** [v.k] where [v] is known not to be null or undefined; primitives have
    none of the properties read by the source. *)
Definition prop (v : value) (k : string) : value :=
  match v with
  | VObj o => get o k
  | _ => VUndefined
  end.

(** [v?.k]. *)
Definition opt_prop (v : value) (k : string) : value := prop v k.

(** The elements of an array value; [timestamps] is [number[]] in the
    interface, another truthy value is read as an array without elements. *)
Definition elements (v : value) : list value :=
  match v with
  | VArr l => l
  | _ => []
  end.

(** [a[i]]. *)
Definition nth (l : list value) (i : nat) : value :=
  default VUndefined (l !! i).

(** [a[a.length - 1]]; [a[-1]] is [undefined] on an empty array. *)
Definition last (l : list value) : value :=
  default VUndefined (List.last (Some <$> l) None).

End JS.

(** ** Segment map builder *)

(** [segment.timingData?.timestamps || []] *)
Definition timestamps_of (segment : object) : list value :=
  JS.elements (JS.or (JS.opt_prop (JS.get segment "timingData") "timestamps") (VArr [])).

(** The body of the [playlist.map] callback: the enhanced segment for
    [segment] at position [index], given the running [cumulativeTime]. *)
Definition segmentDuration_of (timestamps : list value) : number :=
  if decide (2 <= length timestamps)%nat
  then JS.sub (JS.to_number (JS.last timestamps)) (JS.to_number (JS.nth timestamps 0))
  else Fin 0.

Definition enhance (cumulativeTime : number) (index : nat) (segment : object) : object :=
  let timestamps := timestamps_of segment in
  let segmentDuration := segmentDuration_of timestamps in
  let startTimestamp := JS.or (JS.nth timestamps 0) (VNum (Fin 0)) in
  let endTimestamp := JS.or (JS.last timestamps) startTimestamp in
  <["virtualEnd" := VNum (JS.add cumulativeTime segmentDuration)]>
  (<["virtualStart" := VNum cumulativeTime]>
  (<["duration" := VNum segmentDuration]>
  (<["endTimestamp" := endTimestamp]>
  (<["startTimestamp" := startTimestamp]>
  (<["index" := VNum (JS.of_nat index)]> segment))))).

Fixpoint map_segments (cumulativeTime : number) (index : nat) (playlist : list object)
  : list object :=
  match playlist with
  | [] => []
  | segment :: rest =>
      enhance cumulativeTime index segment
      :: map_segments (JS.add cumulativeTime (segmentDuration_of (timestamps_of segment)))
                      (S index) rest
  end.

(** The running [cumulativeTime] before the segment at position [k]. *)
Fixpoint cumulative (c : number) (playlist : list object) (k : nat) : number :=
  match k, playlist with
  | S k', d :: rest =>
      cumulative (JS.add c (segmentDuration_of (timestamps_of d))) rest k'
  | _, _ => c
  end.

(** [buildSegmentMap(playlist)]; [None] is a null or undefined playlist. *)
Definition buildSegmentMap (playlist : option (list object)) : list object :=
  match playlist with
  | None => []
  | Some [] => []
  | Some l => map_segments (Fin 0) 0 l
  end.

(** [totalDuration]: the [virtualEnd] of the last segment, 0 for an empty map. *)
Definition totalDuration_of (segmentMap : list object) : number :=
  match List.last (Some <$> segmentMap) None with
  | Some s => JS.to_number (JS.get s "virtualEnd")
  | None => Fin 0
  end.

(** ** Player state, the audio element and the provider's refs *)

Record state : Type := mkState {
  currentPlaylist : option (list object);
  queue : list (list object);
  isPlaying : bool;
  isPaused : bool;
  currentSegmentIndex : nat;
  currentTime : number;
  duration : number;
  virtualTime : number;
  totalDuration : number;
  isLoading : bool;
  error : option string;
  playbackRate : number;
  isMinimized : bool;
}.

(** The argument of [useState]. *)
Definition initialState : state :=
  {| currentPlaylist := None; queue := []; isPlaying := false; isPaused := false;
     currentSegmentIndex := 0; currentTime := Fin 0; duration := Fin 0;
     virtualTime := Fin 0; totalDuration := Fin 0; isLoading := false;
     error := None; playbackRate := Fin 1; isMinimized := false |}.

(** The addresses of media files.  The [src] attribute of the element reads
    back as the address it was given resolved against the address of the
    document.  The URL parser is modelled on the two shapes of address that
    matter to the provider: an address that starts with a scheme is absolute
    and is read back as it is written, which is exact for an address in
    serialized form, as the audio API returns it; an address without a scheme
    is relative and is appended to the base, which is exact for a plain
    relative path (no leading slash, no dot segment, no character that the
    parser encodes). *)
Module URL.

(** The address of the document, the base of relative addresses. *)
Definition documentBase : string := "https://bible-compass.example/".

Definition is_alpha (c : ascii) : bool :=
  bool_decide (65 <= nat_of_ascii c <= 90)%nat
  || bool_decide (97 <= nat_of_ascii c <= 122)%nat.

(** A character of a scheme after the first: a letter, a digit, [+], [-]
    or [.]. *)
Definition is_scheme_char (c : ascii) : bool :=
  is_alpha c || bool_decide (48 <= nat_of_ascii c <= 57)%nat
  || Ascii.eqb c "+" || Ascii.eqb c "-" || Ascii.eqb c ".".

(** Characters of a scheme up to a colon. *)
Fixpoint scheme_end (s : string) : bool :=
  match s with
  | EmptyString => false
  | String c r => Ascii.eqb c ":" || (is_scheme_char c && scheme_end r)
  end.

Definition has_scheme (u : string) : bool :=
  match u with
  | EmptyString => false
  | String c r => is_alpha c && scheme_end r
  end.

Definition resolve (u : string) : string :=
  if has_scheme u then u else documentBase +:+ u.

End URL.

(** The part of [HTMLAudioElement] the provider drives.  [src] is the content
    attribute, the address as it was assigned; [currentTime] is the position
    last requested or reported (the clamping to the length of the media,
    unknown to the code, is not modelled); [loads] counts the calls of
    [load()]. *)
Module Audio.
Record t : Type := mk {
  src : string;
  currentTime : Q;
  paused : bool;
  readyState : nat;
  loads : nat;
}.

(** [new Audio()] *)
Definition fresh : t :=
  {| src := ""; currentTime := 0; paused := true; readyState := 0; loads := 0 |}.

Definition set_paused (b : bool) (a : t) : t :=
  {| src := src a; currentTime := currentTime a; paused := b;
     readyState := readyState a; loads := loads a |}.

Definition set_currentTime (q : Q) (a : t) : t :=
  {| src := src a; currentTime := q; paused := paused a;
     readyState := readyState a; loads := loads a |}.

Definition set_readyState (n : nat) (a : t) : t :=
  {| src := src a; currentTime := currentTime a; paused := paused a;
     readyState := n; loads := loads a |}.

(** [src = url] and [load()]: the load algorithm of the element takes the
    position back to 0 and the readiness back to HAVE_NOTHING. *)
Definition load (url : string) (a : t) : t :=
  {| src := url; currentTime := 0; paused := paused a;
     readyState := 0; loads := S (loads a) |}.

(** Reading [audio.src]: the empty string while the attribute is absent, and
    then the address assigned, resolved.  The provider assigns [src] only
    together with a call of [load()], so that the attribute is absent exactly
    when [loads] is 0. *)
Definition src_read (a : t) : string :=
  if (loads a =? 0)%nat then "" else URL.resolve (src a).
End Audio.

(** Closures the source hands to [setTimeout], to [addEventListener] and to
    the promise returned by [audio.play()]. *)
Inductive task : Type :=
| HandleLoaded (targetTime : number)   (* loadSegmentAudio: handleLoaded *)
| TryPlayNext                          (* handleSegmentEnd: tryPlay *)
| TryPlaySeek                          (* seekTo: tryPlay *)
| ClearSeeking                         (* seekTo: isSeekingRef.current = false *)
| CallPlay                             (* loadPlaylist, playSegment: play() *)
| PlayThen                             (* play: then *)
| PlayCatch                            (* play: catch *)
| QueuedThen                           (* handlePlaylistEnd: then *)
| LogError (msg : string).             (* catch handlers that only log *)

Inductive trigger : Type :=
| Timeout (ms : nat)
| Loadeddata
| PlayFulfilled
| PlayRejected.

(** The provider between two handlers.  [st] is the state React holds, with
    every update issued so far applied; [rendered] is the [state] object of
    the last render, the one the closures of the callbacks read as
    [state.queue], [state.isPlaying] and so on.  The callbacks that read
    [state] list what they read among their dependencies, so the callbacks of
    the last render see the state of the last render; the two differ from an
    update until the render that follows it. *)
Record world : Type := mkWorld {
  st : state;
  audioRef : option Audio.t;
  currentSegmentRef : nat;
  isSeekingRef : bool;
  playlistRef : option (list object);
  queueRef : list (list object);
  segmentMapRef : list object;
  virtualTimeRef : number;
  isPlayingRef : bool;
  pending : list (trigger * task);
  console : list string;
  rendered : state;
}.

(** The provider after its first render and the mounting effect. *)
Definition initialWorld : world :=
  {| st := initialState; audioRef := Some Audio.fresh; currentSegmentRef := 0;
     isSeekingRef := false; playlistRef := None; queueRef := [];
     segmentMapRef := []; virtualTimeRef := Fin 0; isPlayingRef := false;
     pending := []; console := []; rendered := initialState |}.

(** ** Commands: state passing with exceptions *)

Inductive outcome (A : Type) : Type :=
| Ret (a : A) (w : world)
| Throw (e : string) (w : world).
Arguments Ret {A} a w.
Arguments Throw {A} e w.

Definition M (A : Type) : Type := world -> outcome A.

Definition ret {A} (a : A) : M A := fun w => Ret a w.

Definition bind {A B} (c : M A) (k : A -> M B) : M B :=
  fun w => match c w with
           | Ret a w' => k a w'
           | Throw e w' => Throw e w'
           end.

Definition throw {A} (e : string) : M A := fun w => Throw e w.

Definition read {A} (f : world -> A) : M A := fun w => Ret (f w) w.

Definition modify (f : world -> world) : M unit := fun w => Ret tt (f w).

Declare Scope cmd_scope.
Delimit Scope cmd_scope with cmd.
Notation "x <~ c ;; k" := (bind c (fun x => k))
  (at level 100, c at next level, right associativity) : cmd_scope.
Notation "c ;;; k" := (bind c (fun _ => k))
  (at level 100, right associativity) : cmd_scope.
Local Open Scope cmd_scope.

(** The world a command leaves behind, normally or not. *)
Definition final {A} (o : outcome A) : world :=
  match o with Ret _ w => w | Throw _ w => w end.

Definition returns {A} (o : outcome A) : bool :=
  match o with Ret _ _ => true | Throw _ _ => false end.

(** The value a command returns, when it returns. *)
Definition result {A} (o : outcome A) : option A :=
  match o with Ret a _ => Some a | Throw _ _ => None end.

(** ** Updates of a state object: [{ ...prev, field: v }] *)

Definition set_currentPlaylist (v : option (list object)) (s : state) : state :=
  {| currentPlaylist := v; queue := queue s; isPlaying := isPlaying s;
     isPaused := isPaused s; currentSegmentIndex := currentSegmentIndex s;
     currentTime := currentTime s; duration := duration s;
     virtualTime := virtualTime s; totalDuration := totalDuration s;
     isLoading := isLoading s; error := error s;
     playbackRate := playbackRate s; isMinimized := isMinimized s |}.

Definition set_queue (v : list (list object)) (s : state) : state :=
  {| currentPlaylist := currentPlaylist s; queue := v;
     isPlaying := isPlaying s; isPaused := isPaused s;
     currentSegmentIndex := currentSegmentIndex s;
     currentTime := currentTime s; duration := duration s;
     virtualTime := virtualTime s; totalDuration := totalDuration s;
     isLoading := isLoading s; error := error s;
     playbackRate := playbackRate s; isMinimized := isMinimized s |}.

Definition set_isPlaying (v : bool) (s : state) : state :=
  {| currentPlaylist := currentPlaylist s; queue := queue s; isPlaying := v;
     isPaused := isPaused s; currentSegmentIndex := currentSegmentIndex s;
     currentTime := currentTime s; duration := duration s;
     virtualTime := virtualTime s; totalDuration := totalDuration s;
     isLoading := isLoading s; error := error s;
     playbackRate := playbackRate s; isMinimized := isMinimized s |}.

Definition set_isPaused (v : bool) (s : state) : state :=
  {| currentPlaylist := currentPlaylist s; queue := queue s;
     isPlaying := isPlaying s; isPaused := v;
     currentSegmentIndex := currentSegmentIndex s;
     currentTime := currentTime s; duration := duration s;
     virtualTime := virtualTime s; totalDuration := totalDuration s;
     isLoading := isLoading s; error := error s;
     playbackRate := playbackRate s; isMinimized := isMinimized s |}.

Definition set_currentSegmentIndex (v : nat) (s : state) : state :=
  {| currentPlaylist := currentPlaylist s; queue := queue s;
     isPlaying := isPlaying s; isPaused := isPaused s;
     currentSegmentIndex := v; currentTime := currentTime s;
     duration := duration s; virtualTime := virtualTime s;
     totalDuration := totalDuration s; isLoading := isLoading s;
     error := error s; playbackRate := playbackRate s;
     isMinimized := isMinimized s |}.

Definition set_currentTime (v : number) (s : state) : state :=
  {| currentPlaylist := currentPlaylist s; queue := queue s;
     isPlaying := isPlaying s; isPaused := isPaused s;
     currentSegmentIndex := currentSegmentIndex s; currentTime := v;
     duration := duration s; virtualTime := virtualTime s;
     totalDuration := totalDuration s; isLoading := isLoading s;
     error := error s; playbackRate := playbackRate s;
     isMinimized := isMinimized s |}.

Definition set_virtualTime (v : number) (s : state) : state :=
  {| currentPlaylist := currentPlaylist s; queue := queue s;
     isPlaying := isPlaying s; isPaused := isPaused s;
     currentSegmentIndex := currentSegmentIndex s;
     currentTime := currentTime s; duration := duration s; virtualTime := v;
     totalDuration := totalDuration s; isLoading := isLoading s;
     error := error s; playbackRate := playbackRate s;
     isMinimized := isMinimized s |}.

Definition set_totalDuration (v : number) (s : state) : state :=
  {| currentPlaylist := currentPlaylist s; queue := queue s;
     isPlaying := isPlaying s; isPaused := isPaused s;
     currentSegmentIndex := currentSegmentIndex s;
     currentTime := currentTime s; duration := duration s;
     virtualTime := virtualTime s; totalDuration := v;
     isLoading := isLoading s; error := error s;
     playbackRate := playbackRate s; isMinimized := isMinimized s |}.

Definition set_isLoading (v : bool) (s : state) : state :=
  {| currentPlaylist := currentPlaylist s; queue := queue s;
     isPlaying := isPlaying s; isPaused := isPaused s;
     currentSegmentIndex := currentSegmentIndex s;
     currentTime := currentTime s; duration := duration s;
     virtualTime := virtualTime s; totalDuration := totalDuration s;
     isLoading := v; error := error s; playbackRate := playbackRate s;
     isMinimized := isMinimized s |}.

Definition set_error (v : option string) (s : state) : state :=
  {| currentPlaylist := currentPlaylist s; queue := queue s;
     isPlaying := isPlaying s; isPaused := isPaused s;
     currentSegmentIndex := currentSegmentIndex s;
     currentTime := currentTime s; duration := duration s;
     virtualTime := virtualTime s; totalDuration := totalDuration s;
     isLoading := isLoading s; error := v; playbackRate := playbackRate s;
     isMinimized := isMinimized s |}.

Definition set_playbackRate (v : number) (s : state) : state :=
  {| currentPlaylist := currentPlaylist s; queue := queue s;
     isPlaying := isPlaying s; isPaused := isPaused s;
     currentSegmentIndex := currentSegmentIndex s;
     currentTime := currentTime s; duration := duration s;
     virtualTime := virtualTime s; totalDuration := totalDuration s;
     isLoading := isLoading s; error := error s; playbackRate := v;
     isMinimized := isMinimized s |}.

Definition set_isMinimized (v : bool) (s : state) : state :=
  {| currentPlaylist := currentPlaylist s; queue := queue s;
     isPlaying := isPlaying s; isPaused := isPaused s;
     currentSegmentIndex := currentSegmentIndex s;
     currentTime := currentTime s; duration := duration s;
     virtualTime := virtualTime s; totalDuration := totalDuration s;
     isLoading := isLoading s; error := error s;
     playbackRate := playbackRate s; isMinimized := v |}.

(** Assignments to the refs and to the other components of the world. *)

Definition put_st (v : state) (w : world) : world :=
  {| st := v; audioRef := audioRef w;
     currentSegmentRef := currentSegmentRef w;
     isSeekingRef := isSeekingRef w; playlistRef := playlistRef w;
     queueRef := queueRef w; segmentMapRef := segmentMapRef w;
     virtualTimeRef := virtualTimeRef w; isPlayingRef := isPlayingRef w;
     pending := pending w; console := console w;
     rendered := rendered w |}.

Definition put_audioRef (v : option Audio.t) (w : world) : world :=
  {| st := st w; audioRef := v; currentSegmentRef := currentSegmentRef w;
     isSeekingRef := isSeekingRef w; playlistRef := playlistRef w;
     queueRef := queueRef w; segmentMapRef := segmentMapRef w;
     virtualTimeRef := virtualTimeRef w; isPlayingRef := isPlayingRef w;
     pending := pending w; console := console w;
     rendered := rendered w |}.

Definition put_currentSegmentRef (v : nat) (w : world) : world :=
  {| st := st w; audioRef := audioRef w; currentSegmentRef := v;
     isSeekingRef := isSeekingRef w; playlistRef := playlistRef w;
     queueRef := queueRef w; segmentMapRef := segmentMapRef w;
     virtualTimeRef := virtualTimeRef w; isPlayingRef := isPlayingRef w;
     pending := pending w; console := console w;
     rendered := rendered w |}.

Definition put_isSeekingRef (v : bool) (w : world) : world :=
  {| st := st w; audioRef := audioRef w;
     currentSegmentRef := currentSegmentRef w; isSeekingRef := v;
     playlistRef := playlistRef w; queueRef := queueRef w;
     segmentMapRef := segmentMapRef w; virtualTimeRef := virtualTimeRef w;
     isPlayingRef := isPlayingRef w; pending := pending w;
     console := console w;
     rendered := rendered w |}.

Definition put_playlistRef (v : option (list object)) (w : world) : world :=
  {| st := st w; audioRef := audioRef w;
     currentSegmentRef := currentSegmentRef w;
     isSeekingRef := isSeekingRef w; playlistRef := v;
     queueRef := queueRef w; segmentMapRef := segmentMapRef w;
     virtualTimeRef := virtualTimeRef w; isPlayingRef := isPlayingRef w;
     pending := pending w; console := console w;
     rendered := rendered w |}.

Definition put_queueRef (v : list (list object)) (w : world) : world :=
  {| st := st w; audioRef := audioRef w;
     currentSegmentRef := currentSegmentRef w;
     isSeekingRef := isSeekingRef w; playlistRef := playlistRef w;
     queueRef := v; segmentMapRef := segmentMapRef w;
     virtualTimeRef := virtualTimeRef w; isPlayingRef := isPlayingRef w;
     pending := pending w; console := console w;
     rendered := rendered w |}.

Definition put_segmentMapRef (v : list object) (w : world) : world :=
  {| st := st w; audioRef := audioRef w;
     currentSegmentRef := currentSegmentRef w;
     isSeekingRef := isSeekingRef w; playlistRef := playlistRef w;
     queueRef := queueRef w; segmentMapRef := v;
     virtualTimeRef := virtualTimeRef w; isPlayingRef := isPlayingRef w;
     pending := pending w; console := console w;
     rendered := rendered w |}.

Definition put_virtualTimeRef (v : number) (w : world) : world :=
  {| st := st w; audioRef := audioRef w;
     currentSegmentRef := currentSegmentRef w;
     isSeekingRef := isSeekingRef w; playlistRef := playlistRef w;
     queueRef := queueRef w; segmentMapRef := segmentMapRef w;
     virtualTimeRef := v; isPlayingRef := isPlayingRef w;
     pending := pending w; console := console w;
     rendered := rendered w |}.

Definition put_isPlayingRef (v : bool) (w : world) : world :=
  {| st := st w; audioRef := audioRef w;
     currentSegmentRef := currentSegmentRef w;
     isSeekingRef := isSeekingRef w; playlistRef := playlistRef w;
     queueRef := queueRef w; segmentMapRef := segmentMapRef w;
     virtualTimeRef := virtualTimeRef w; isPlayingRef := v;
     pending := pending w; console := console w;
     rendered := rendered w |}.

Definition put_pending (v : list (trigger * task)) (w : world) : world :=
  {| st := st w; audioRef := audioRef w;
     currentSegmentRef := currentSegmentRef w;
     isSeekingRef := isSeekingRef w; playlistRef := playlistRef w;
     queueRef := queueRef w; segmentMapRef := segmentMapRef w;
     virtualTimeRef := virtualTimeRef w; isPlayingRef := isPlayingRef w;
     pending := v; console := console w;
     rendered := rendered w |}.

Definition put_console (v : list string) (w : world) : world :=
  {| st := st w; audioRef := audioRef w;
     currentSegmentRef := currentSegmentRef w;
     isSeekingRef := isSeekingRef w; playlistRef := playlistRef w;
     queueRef := queueRef w; segmentMapRef := segmentMapRef w;
     virtualTimeRef := virtualTimeRef w; isPlayingRef := isPlayingRef w;
     pending := pending w; console := v;
     rendered := rendered w |}.

Definition put_rendered (v : state) (w : world) : world :=
  {| st := st w; audioRef := audioRef w;
     currentSegmentRef := currentSegmentRef w;
     isSeekingRef := isSeekingRef w; playlistRef := playlistRef w;
     queueRef := queueRef w; segmentMapRef := segmentMapRef w;
     virtualTimeRef := virtualTimeRef w; isPlayingRef := isPlayingRef w;
     pending := pending w; console := console w; rendered := v |}.

(** [setState((prev) => ({ ...prev, ...updates }))]: the updates of one
    handler are applied in the order they are issued. *)
Definition updateState (updates : state -> state) : M unit :=
  modify (fun w => put_st (updates (st w)) w).

(** [setTimeout], [addEventListener] and promise handlers. *)
Definition schedule (t : trigger) (k : task) : M unit :=
  modify (fun w => put_pending (pending w ++ [(t, k)]) w).

(** [console.warn] and [console.error]. *)
Definition log (msg : string) : M unit :=
  modify (fun w => put_console (console w ++ [msg]) w).

(** ** Operations of the audio element *)

(** A method call or an assignment on [audioRef.current]; a [TypeError] when
    the ref is null. *)
Definition on_audio (f : Audio.t -> Audio.t) : M unit :=
  fun w => match audioRef w with
           | Some a => Ret tt (put_audioRef (Some (f a)) w)
           | None => Throw "TypeError" w
           end.

Definition audio_pause : M unit := on_audio (Audio.set_paused true).

(** [audio.play()]: the element leaves the paused state; the handlers of the
    returned promise are scheduled by the caller. *)
Definition audio_play : M unit := on_audio (Audio.set_paused false).

(** [audio.currentTime = t]: the attribute is a WebIDL [double], so that a
    value that is not finite raises a [TypeError]. *)
Definition audio_seek (t : number) : M unit :=
  match t with
  | Fin q => on_audio (Audio.set_currentTime q)
  | NaN => throw "TypeError"
  end.

(** The string of a number in a template literal or a DOM attribute; exact on
    integers, the only numbers that reach it. *)
Definition String_of_number (n : number) : string :=
  match n with
  | NaN => "NaN"
  | Fin q =>
      let r := Qred q in
      if decide (Qden r = 1%positive) then pretty (Qnum r)
      else pretty (Qnum r) +:+ "/" +:+ pretty (Z.pos (Qden r))
  end.

(** The string of a value; exact on strings, [undefined], [null] and
    integers. *)
Definition String_of (v : value) : string :=
  match v with
  | VUndefined => "undefined"
  | VNull => "null"
  | VNum n => String_of_number n
  | VStr s => s
  | VArr _ => ""
  | VObj _ => "[object Object]"
  end.

(** [audio.src = url; audio.load()] *)
Definition audio_load_src (url : value) : M unit :=
  on_audio (Audio.load (String_of url)).

(** [audio.src !== url]: the address read from the element, a string, is
    compared with the property of the descriptor as it is. *)
Definition src_differs (a : Audio.t) (url : value) : bool :=
  match url with
  | VStr u => negb (String.eqb (Audio.src_read a) u)
  | _ => true
  end.

(** ** Virtual clock *)

(** [calculateVirtualTime()] *)
Definition calculateVirtualTime (w : world) : number :=
  let segmentMap := segmentMapRef w in
  let currentIndex := currentSegmentRef w in
  match audioRef w, segmentMap !! currentIndex with
  | Some audio, Some currentSegment =>
      let realTime := Fin (Audio.currentTime audio) in
      let offset := JS.sub realTime (JS.to_number (JS.get currentSegment "startTimestamp")) in
      let virtualTime := JS.add (JS.to_number (JS.get currentSegment "virtualStart")) offset in
      JS.Math_max (Fin 0) virtualTime
  | _, _ => Fin 0
  end.

(** ** Playback controller *)

Inductive segmentOrIndex : Type :=
| ByIndex (i : nat)
| BySegment (segment : object).

(** [loadSegmentAudio(segmentOrIndex, seekOffset = 0)] *)
Definition loadSegmentAudio (arg : segmentOrIndex) (seekOffset : number) : M unit :=
  fun w =>
    match audioRef w with
    | None => Ret tt w
    | Some audio =>
        let segmentMap := segmentMapRef w in
        let found :=
          match arg with
          | ByIndex i => segmentMap !! i
          | BySegment segment => Some segment
          end in
        match found with
        | None => Ret tt w
        | Some segment =>
            let needsNewFile := src_differs audio (JS.get segment "audioUrl") in
            let targetTime :=
              JS.add (JS.to_number (JS.get segment "startTimestamp")) seekOffset in
            if needsNewFile then
              (updateState (set_isLoading true) ;;;
               audio_load_src (JS.get segment "audioUrl") ;;;
               schedule Loadeddata (HandleLoaded targetTime)) w
            else
              audio_seek targetTime w
        end
    end.

(** [handlePlaylistEnd()] *)
Definition handlePlaylistEnd : M unit :=
  updateState (fun s => set_isPaused false (set_isPlaying false s)) ;;;
  queue <~ read queueRef ;;
  match queue with
  | [] => ret tt
  | nextPlaylist :: remainingQueue =>
      updateState (fun s =>
        set_currentTime (Fin 0) (set_currentSegmentIndex 0
          (set_queue remainingQueue (set_currentPlaylist (Some nextPlaylist) s)))) ;;;
      match nextPlaylist with
      | [] => ret tt
      | first :: _ =>
          loadSegmentAudio (BySegment first) (Fin 0) ;;;
          audio_play ;;;
          schedule PlayFulfilled QueuedThen ;;;
          schedule PlayRejected (LogError "Failed to play queued playlist:")
      end
  end.

(** [if (audioRef.current) audioRef.current.pause()] *)
Definition pause_if_audio : M unit :=
  audio <~ read audioRef ;;
  match audio with
  | Some _ => audio_pause
  | None => ret tt
  end.

(** [handleSegmentEnd()] *)
Definition handleSegmentEnd : M unit :=
  segmentMap <~ read segmentMapRef ;;
  currentIndex <~ read currentSegmentRef ;;
  wasPlaying <~ read isPlayingRef ;;
  match segmentMap with
  | [] => ret tt
  | _ :: _ =>
      let nextIndex := (currentIndex + 1)%nat in
      if decide (nextIndex < length segmentMap)%nat then
        pause_if_audio ;;;
        updateState (set_currentSegmentIndex nextIndex) ;;;
        loadSegmentAudio (ByIndex nextIndex) (Fin 0) ;;;
        (if wasPlaying then schedule (Timeout 50) TryPlayNext else ret tt)
      else
        pause_if_audio ;;;
        handlePlaylistEnd
  end.

(** [play()] *)
Definition play : M unit :=
  audio <~ read audioRef ;;
  match audio with
  | None => ret tt
  | Some _ =>
      audio_play ;;;
      schedule PlayFulfilled PlayThen ;;;
      schedule PlayRejected PlayCatch
  end.

(** [pause()] *)
Definition pause : M unit :=
  audio <~ read audioRef ;;
  match audio with
  | None => ret tt
  | Some _ =>
      audio_pause ;;;
      modify (put_isPlayingRef false) ;;;
      updateState (fun s => set_isPaused true (set_isPlaying false s))
  end.

(** [stop()] *)
Definition stop : M unit :=
  audio <~ read audioRef ;;
  match audio with
  | None => ret tt
  | Some _ =>
      audio_pause ;;;
      modify (put_isPlayingRef false) ;;;
      segmentMap <~ read segmentMapRef ;;
      (match segmentMap with
       | [] => ret tt
       | _ :: _ => loadSegmentAudio (ByIndex 0) (Fin 0)
       end) ;;;
      updateState (fun s =>
        set_virtualTime (Fin 0) (set_currentTime (Fin 0) (set_currentSegmentIndex 0
          (set_isPaused false (set_isPlaying false s)))))
  end.

(** [togglePlayPause()] *)
Definition togglePlayPause : M unit :=
  state <~ read rendered ;;
  if isPlaying state then pause else play.

(** ** Queue manager and [loadPlaylist] *)

(** The [position] option: a string or a number. *)
Inductive position_arg : Type :=
| PosString (s : string)
| PosNumber (n : number).

(** The [options] argument; [None] is a property left undefined, which takes
    the default of the destructuring pattern. *)
Module Options.
Record t : Type := mk {
  mode : option string;
  autoPlay : option bool;
  clearQueue : option bool;
  position : option position_arg;
}.

(** [{}] *)
Definition empty : t :=
  {| mode := None; autoPlay := None; clearQueue := None; position := None |}.
End Options.

(** ToIntegerOrInfinity: [NaN] is 0, a fraction is truncated towards 0. *)
Definition ToInteger (n : number) : Z :=
  match n with
  | NaN => 0%Z
  | Fin q => if Qle_bool 0 q then Qfloor q else Qceiling q
  end.

(** [a.splice(start, 0, x)]: a negative [start] counts from the end, and the
    result is clamped to the bounds of the array. *)
Definition splice_insert {A} (start : number) (x : A) (a : list A) : list A :=
  let len := Z.of_nat (length a) in
  let relativeStart := ToInteger start in
  let actualStart :=
    if (relativeStart <? 0)%Z then Z.max (len + relativeStart) 0
    else Z.min relativeStart len in
  take (Z.to_nat actualStart) a ++ x :: drop (Z.to_nat actualStart) a.

(** The queue branch of [loadPlaylist]: [newQueue] after the insertion. *)
Definition enqueue (playlistData : list object) (clearQueue : bool)
    (position : position_arg) (current : list (list object)) : list (list object) :=
  let newQueue := if clearQueue then [playlistData] else current in
  match position with
  | PosString s =>
      if String.eqb s "start" then playlistData :: newQueue
      else newQueue ++ [playlistData]
  | PosNumber n => splice_insert n playlistData newQueue
  end.

(** [loadPlaylist(playlistData, options = {})]; [None] is a missing
    playlist. *)
Definition loadPlaylist (playlistData : option (list object)) (options : Options.t)
  : M unit :=
  let mode := default "replace" (Options.mode options) in
  let autoPlay := default false (Options.autoPlay options) in
  let clearQueue := default false (Options.clearQueue options) in
  let position := default (PosString "end") (Options.position options) in
  match playlistData with
  | None | Some [] => log "Empty playlist provided"
  | Some playlistData =>
      if String.eqb mode "queue" then
        queueNow <~ read queueRef ;;
        updateState (set_queue (enqueue playlistData clearQueue position queueNow))
      else
        pause_if_audio ;;;
        let segmentMap := buildSegmentMap (Some playlistData) in
        modify (put_segmentMapRef segmentMap) ;;;
        let totalDuration := totalDuration_of segmentMap in
        state <~ read rendered ;;
        updateState (fun s =>
          set_queue (if clearQueue then [] else queue state)
            (set_error None (set_isPaused false (set_isPlaying false
              (set_totalDuration totalDuration (set_virtualTime (Fin 0)
                (set_currentTime (Fin 0) (set_currentSegmentIndex 0
                  (set_currentPlaylist (Some playlistData) s))))))))) ;;;
        match segmentMap with
        | [] => ret tt
        | _ :: _ =>
            loadSegmentAudio (ByIndex 0) (Fin 0) ;;;
            (if autoPlay then schedule (Timeout 100) CallPlay else ret tt)
        end
  end.

(** [clearQueue()] *)
Definition clearQueue : M unit := updateState (set_queue []).

(** [removeFromQueue(index)], for an index that is a natural number: the
    copy of [state.queue] without the element at [index]. *)
Definition removeFromQueue (index : nat) : M unit :=
  state <~ read rendered ;;
  let newQueue := (take index (queue state) ++ drop (S index) (queue state))%list in
  updateState (set_queue newQueue).

(** [setPlaybackRate(rate)] *)
Definition setPlaybackRate (rate : number) : M unit :=
  if JS.lt rate (Fin (25 # 100)) || JS.lt (Fin 2) rate then ret tt
  else updateState (set_playbackRate rate).

(** ** Seek engine *)

(** The scanning loop of [seekTo]: the first segment, from position [i] on,
    whose virtual interval contains [virtualTime]. *)
Fixpoint find_segment (virtualTime : number) (i : nat) (segmentMap : list object)
  : option (nat * object) :=
  match segmentMap with
  | [] => None
  | segment :: rest =>
      if JS.ge virtualTime (JS.to_number (JS.get segment "virtualStart"))
         && JS.le virtualTime (JS.to_number (JS.get segment "virtualEnd"))
      then Some (i, segment)
      else find_segment virtualTime (S i) rest
  end.

(** The target of a seek: the segment found, or the first or last segment. *)
Definition seek_target (virtualTime : number) (segmentMap : list object)
  : option (nat * object) :=
  match find_segment virtualTime 0 segmentMap with
  | Some target => Some target
  | None =>
      if JS.lt virtualTime (Fin 0)
      then pair 0%nat <$> segmentMap !! 0%nat
      else pair (length segmentMap - 1)%nat <$> segmentMap !! (length segmentMap - 1)%nat
  end.

(** [seekTo(virtualTime)] *)
Definition seekTo (virtualTime : number) : M unit :=
  audio <~ read audioRef ;;
  segmentMap <~ read segmentMapRef ;;
  wasPlaying <~ read isPlayingRef ;;
  match audio, seek_target virtualTime segmentMap with
  | Some _, Some (targetIndex, targetSegment) =>
      let offsetInSegment :=
        JS.sub virtualTime (JS.to_number (JS.get targetSegment "virtualStart")) in
      currentIndex <~ read currentSegmentRef ;;
      let needsSegmentChange := negb (Nat.eqb targetIndex currentIndex) in
      modify (put_isSeekingRef true) ;;;
      (if needsSegmentChange then
         audio_pause ;;;
         updateState (fun s =>
           set_virtualTime virtualTime (set_currentSegmentIndex targetIndex s)) ;;;
         loadSegmentAudio (ByIndex targetIndex) offsetInSegment ;;;
         (if wasPlaying then schedule (Timeout 100) TryPlaySeek else ret tt)
       else
         let realTime :=
           JS.add (JS.to_number (JS.get targetSegment "startTimestamp")) offsetInSegment in
         audio_seek realTime ;;;
         updateState (set_virtualTime virtualTime) ;;;
         modify (put_virtualTimeRef virtualTime) ;;;
         paused <~ read (fun w => from_option Audio.paused false (audioRef w)) ;;
         (if wasPlaying && paused then
            audio_play ;;;
            schedule PlayRejected (LogError "Failed to resume after seek:")
          else ret tt)) ;;;
      schedule (Timeout 200) ClearSeeking
  | _, _ => ret tt
  end.

(** [playSegment(index)] *)
Definition playSegment (index : Z) : M unit :=
  segmentMap <~ read segmentMapRef ;;
  if (index <? 0)%Z || (Z.of_nat (length segmentMap) <=? index)%Z then ret tt
  else
    updateState (set_currentSegmentIndex (Z.to_nat index)) ;;;
    loadSegmentAudio (ByIndex (Z.to_nat index)) (Fin 0) ;;;
    state <~ read rendered ;;
    (if isPlaying state then schedule (Timeout 50) CallPlay else ret tt).

(** [nextSegment()] *)
Definition nextSegment : M unit :=
  state <~ read rendered ;;
  let nextIndex := (Z.of_nat (currentSegmentIndex state) + 1)%Z in
  match currentPlaylist state with
  | None => ret tt
  | Some playlist =>
      if (Z.of_nat (length playlist) <=? nextIndex)%Z then ret tt
      else playSegment nextIndex
  end.

(** [previousSegment()] *)
Definition previousSegment : M unit :=
  state <~ read rendered ;;
  let prevIndex := (Z.of_nat (currentSegmentIndex state) - 1)%Z in
  if (prevIndex <? 0)%Z then ret tt else playSegment prevIndex.

(** ** Events of the audio element and effects of a commit *)

(** The [timeupdate] listener. *)
Definition handleTimeUpdate : M unit :=
  seeking <~ read isSeekingRef ;;
  audio <~ read audioRef ;;
  match seeking, audio with
  | false, Some a =>
      let realTime := Fin (Audio.currentTime a) in
      virtualTime <~ read calculateVirtualTime ;;
      updateState (fun s => set_virtualTime virtualTime (set_currentTime realTime s)) ;;;
      modify (put_virtualTimeRef virtualTime) ;;;
      segmentMap <~ read segmentMapRef ;;
      currentIndex <~ read currentSegmentRef ;;
      match segmentMap !! currentIndex with
      | Some currentSegment =>
          if JS.ge realTime (JS.to_number (JS.get currentSegment "endTimestamp"))
          then handleSegmentEnd else ret tt
      | None => ret tt
      end
  | _, _ => ret tt
  end.

(** The element reports the position [realTime] and fires [timeupdate]. *)
Definition timeupdate (realTime : Q) : M unit :=
  audio_seek (Fin realTime) ;;; handleTimeUpdate.

(** The [canplay], [waiting] and [error] listeners. *)
Definition handleCanPlay : M unit := updateState (set_isLoading false).

Definition handleWaiting : M unit := updateState (set_isLoading true).

Definition handleError : M unit :=
  log "Audio playback error:" ;;;
  updateState (fun s =>
    set_isPlaying false (set_error (Some "Failed to load audio") (set_isLoading false s))).

(** The element has buffered the file ([readyState] is HAVE_ENOUGH_DATA). *)
Definition media_ready : M unit := on_audio (Audio.set_readyState 4).

(** A render and the effects that run after its commit: the refs follow the
    state, and the segment map and the total duration are rebuilt from the
    playlist.  The update of the total duration brings a second render, whose
    effects find their dependencies unchanged; the callbacks in use afterwards
    are those of that render, with its state. *)
Definition commit : M unit :=
  s <~ read st ;;
  modify (put_playlistRef (currentPlaylist s)) ;;;
  modify (put_currentSegmentRef (currentSegmentIndex s)) ;;;
  (match currentPlaylist s with
   | Some playlist =>
       let segmentMap := buildSegmentMap (Some playlist) in
       modify (put_segmentMapRef segmentMap) ;;;
       updateState (set_totalDuration (totalDuration_of segmentMap))
   | None => ret tt
   end) ;;;
  s' <~ read st ;;
  modify (put_queueRef (queue s')) ;;;
  modify (put_rendered s').

(** What a scheduled closure does when its trigger fires. *)
Definition run_task (k : task) : M unit :=
  match k with
  | HandleLoaded targetTime => audio_seek targetTime
  | TryPlayNext =>
      audio <~ read audioRef ;;
      if bool_decide (2 <= from_option Audio.readyState 0 audio)%nat
      then audio_play ;;; schedule PlayRejected (LogError "Failed to play next segment:")
      else schedule (Timeout 50) TryPlayNext
  | TryPlaySeek =>
      audio <~ read audioRef ;;
      if bool_decide (2 <= from_option Audio.readyState 0 audio)%nat
      then audio_play ;;; schedule PlayRejected (LogError "Failed to resume after seek:")
      else schedule (Timeout 50) TryPlaySeek
  | ClearSeeking => modify (put_isSeekingRef false)
  | CallPlay => play
  | PlayThen =>
      modify (put_isPlayingRef true) ;;;
      updateState (fun s => set_error None (set_isPaused false (set_isPlaying true s)))
  | PlayCatch =>
      log "Failed to play:" ;;;
      updateState (set_error (Some "Failed to play audio"))
  | QueuedThen => updateState (set_isPlaying true)
  | LogError msg => log msg
  end.

(** ** Verse resolver *)

(** [getCurrentSegment()]; [None] is [null]. *)
Definition getCurrentSegment (w : world) : option object :=
  segmentMapRef w !! currentSegmentRef w.

(** [getSegmentMap()] *)
Definition getSegmentMap (w : world) : list object := segmentMapRef w.

Module Re.

Definition code (c : ascii) : nat := nat_of_ascii c.

(** [\d] *)
Definition is_digit (c : ascii) : bool :=
  bool_decide (48 <= code c <= 57)%nat.

(** [[A-Z0-9]] under the flag [i] *)
Definition is_alnum (c : ascii) : bool :=
  bool_decide (65 <= code c <= 90)%nat || bool_decide (97 <= code c <= 122)%nat
  || is_digit c.

(** [\s], and the characters removed by [trim], among the code units below
    256 *)
Definition is_space (c : ascii) : bool :=
  bool_decide (9 <= code c <= 13)%nat || bool_decide (code c = 32)%nat
  || bool_decide (code c = 160)%nat.

(** A line terminator, which [.] does not match *)
Definition is_newline (c : ascii) : bool :=
  bool_decide (code c = 10)%nat || bool_decide (code c = 13)%nat.

(** The longest prefix of [s] made of characters in [p], and the rest. *)
Fixpoint span (p : ascii -> bool) (s : string) : string * string :=
  match s with
  | EmptyString => (EmptyString, EmptyString)
  | String c r =>
      if p c then let '(a, b) := span p r in (String c a, b)
      else (EmptyString, s)
  end.

Fixpoint all (p : ascii -> bool) (s : string) : bool :=
  match s with
  | EmptyString => true
  | String c r => p c && all p r
  end.

(** [s.includes(c)] for a one-character string [c] *)
Fixpoint includes (c : ascii) (s : string) : bool :=
  match s with
  | EmptyString => false
  | String d r => Ascii.eqb c d || includes c r
  end.

(** [s.split(c)] for a one-character separator [c] *)
Fixpoint split (c : ascii) (s : string) : list string :=
  match s with
  | EmptyString => [EmptyString]
  | String d r =>
      if Ascii.eqb c d then EmptyString :: split c r
      else match split c r with
           | [] => [String d EmptyString]
           | h :: t => String d h :: t
           end
  end.

Fixpoint drop_spaces (s : string) : string :=
  match s with
  | EmptyString => EmptyString
  | String c r => if is_space c then drop_spaces r else s
  end.

(** [s.trim()] *)
Definition trim (s : string) : string :=
  String.rev (drop_spaces (String.rev (drop_spaces s))).

(** The number written by the decimal digits of [s], after [acc]. *)
Fixpoint decimal (acc : nat) (s : string) : nat :=
  match s with
  | EmptyString => acc
  | String c r => decimal (10 * acc + (code c - 48)) r
  end.

(** [s.match(/^([A-Z0-9]+)\s+(\d+):(.+)$/i)]: the three groups.  The
    character classes that follow one another are disjoint, so that each
    greedy quantifier takes the longest run and never gives a character
    back. *)
Definition match_reference (s : string) : option (string * string * string) :=
  let '(book, r1) := span is_alnum s in
  let '(spaces, r2) := span is_space r1 in
  let '(chapter, r3) := span is_digit r2 in
  match book, spaces, chapter, r3 with
  | String _ _, String _ _, String _ _, String ":" (String c r as verseSpec) =>
      if all (fun c => negb (is_newline c)) verseSpec
      then Some (book, chapter, verseSpec) else None
  | _, _, _, _ => None
  end.

End Re.

(** [Number(s)] on the strings a verse specification is made of: white space
    around decimal digits, which is exact as long as the digits write an
    integer a double holds.  The other numeric literals of JavaScript (a
    sign, a fraction, an exponent, a radix prefix, [Infinity]) are outside
    the model and read as [NaN]. *)
Definition Number (s : string) : number :=
  let t := Re.trim s in
  if Re.all Re.is_digit t
  then Fin (inject_Z (Z.of_nat (Re.decimal 0 t)))
  else NaN.


(** [for (let v = start; v <= end; v++) verses.push(v)] *)
Definition verse_range (start end_ : number) : list number :=
  match start, end_ with
  | Fin a, Fin b =>
      if Qle_bool a b
      then (fun k => Fin (a + inject_Z (Z.of_nat k)))
             <$> seq 0 (Z.to_nat (Qfloor (b - a)) + 1)
      else []
  | _, _ => []
  end.

(** [const [start, end] = s.split("-").map(Number)], then the loop. *)
Definition verses_of_range (s : string) : list number :=
  match Number <$> Re.split "-" s with
  | start :: end_ :: _ => verse_range start end_
  | _ => []
  end.

(** The parsing of the verse specification: ["1-2"], ["1,3,5"] or ["1"]. *)
Definition parse_verses (verseSpec : string) : list number :=
  if Re.includes "," verseSpec then
    concat ((fun part =>
               if Re.includes "-" part then verses_of_range (Re.trim part)
               else [Number (Re.trim part)])
            <$> Re.split "," verseSpec)
  else if Re.includes "-" verseSpec then verses_of_range verseSpec
  else [Number verseSpec].

(** [currentTime < (timestamps[i + 1] || Infinity)] *)
Definition verseEnd_lt (currentTime : number) (next : value) : bool :=
  if JS.truthy next then JS.lt currentTime (JS.to_number next)
  else match currentTime with Fin _ => true | NaN => false end.

(** The loop over [verses]: the first verse whose interval holds
    [currentTime]. *)
Fixpoint find_verse (currentTime : number) (timestamps : list value) (i : nat)
    (verses : list number) : option number :=
  match verses with
  | [] => None
  | v :: rest =>
      let verseStart := JS.nth timestamps i in
      if JS.ge currentTime (JS.to_number verseStart)
         && verseEnd_lt currentTime (JS.nth timestamps (S i))
      then Some v
      else find_verse currentTime timestamps (S i) rest
  end.

(** [`${book} ${chapter}:${v}`] *)
Definition verse_label (book chapter : string) (v : value) : string :=
  book +:+ " " +:+ chapter +:+ ":" +:+ String_of v.

(** [getCurrentVerse()]; the result [None] is [null]. *)
Definition getCurrentVerse : M (option string) :=
  w <~ read id ;;
  match getCurrentSegment w with
  | None => ret None
  | Some segment =>
      let timingData := JS.get segment "timingData" in
      if negb (JS.truthy timingData) || negb (JS.truthy (JS.prop timingData "timestamps"))
      then ret None
      else
        let timestamps := JS.elements (JS.prop timingData "timestamps") in
        let currentTime := Fin (from_option Audio.currentTime 0%Q (audioRef w)) in
        match JS.get segment "reference" with
        | VStr reference =>
            match Re.match_reference reference with
            | None => ret None
            | Some (book, chapter, verseSpec) =>
                let verses := parse_verses verseSpec in
                match find_verse currentTime timestamps 0 verses with
                | Some v => ret (Some (verse_label book chapter (VNum v)))
                | None =>
                    let first := from_option VNum VUndefined (verses !! 0%nat) in
                    let last :=
                      from_option VNum VUndefined (List.last (Some <$> verses) None) in
                    if JS.lt currentTime (JS.to_number (JS.nth timestamps 0))
                    then ret (Some (verse_label book chapter first))
                    else ret (Some (verse_label book chapter last))
                end
            end
        | _ => throw "TypeError"
        end
  end.

(** ** Running the closures that were scheduled *)

(** The trigger of the [n]-th registered closure fires: the closure is
    removed from the registered ones (timeouts and promise handlers run once,
    [handleLoaded] removes itself) and runs. *)
Definition fire (n : nat) : M unit :=
  registered <~ read pending ;;
  match registered !! n with
  | Some (_, k) => modify (put_pending (delete n registered)) ;;; run_task k
  | None => ret tt
  end.

(** The position of the first registered closure that satisfies [p]. *)
Fixpoint position_of (p : task -> bool) (n : nat) (l : list (trigger * task))
  : option nat :=
  match l with
  | [] => None
  | (_, k) :: rest => if p k then Some n else position_of p (S n) rest
  end.

Definition is_ClearSeeking (k : task) : bool :=
  match k with ClearSeeking => true | _ => false end.

Definition is_QueuedThen (k : task) : bool :=
  match k with QueuedThen => true | _ => false end.

(** ** The names the builder writes, and the properties the provider reads *)

(** The properties the object literal of [buildSegmentMap] lists after the
    spread of the descriptor. *)
Definition builder_keys : list string :=
  ["index"; "startTimestamp"; "endTimestamp"; "duration"; "virtualStart"; "virtualEnd"].

(** The properties of a descriptor the provider reads. *)
Definition interpreted_keys : list string :=
  ["audioUrl"; "timingData"; "reference"].

(** ** The virtual clock as the specification words it

    [toVirtual(realTime, activeSegment) =
       activeSegment.virtualStart + max(0, realTime − activeSegment.startOffset)] *)
Definition toVirtual_spec (realTime : number) (activeSegment : object) : number :=
  JS.add (JS.to_number (JS.get activeSegment "virtualStart"))
         (JS.Math_max (Fin 0)
            (JS.sub realTime (JS.to_number (JS.get activeSegment "startTimestamp")))).

(** Equality of numbers as [===] decides it on finite numbers. *)
Definition number_eqb (a b : number) : bool :=
  match a, b with
  | Fin x, Fin y => Qeq_bool x y
  | _, _ => false
  end.

(** ** Sample descriptors, shaped as StoryViewer.jsx builds them *)

(** [{ reference, timestamps }], the result of [extractRawTimingData] *)
Definition timing_entry (reference : string) (timestamps : list Q) : value :=
  VObj (<["timestamps" := VArr ((fun q => VNum (Fin q)) <$> timestamps)]>
       (<["reference" := VStr reference]> ∅)).

(** [{ sectionNum, reference, audioUrl, timingData, text }] *)
Definition descriptor (sectionNum : nat) (reference audioUrl : string)
    (timestamps : list Q) : object :=
  <["sectionNum" := VNum (JS.of_nat sectionNum)]>
  (<["reference" := VStr reference]>
  (<["audioUrl" := VStr audioUrl]>
  (<["timingData" := timing_entry reference timestamps]>
  (<["text" := VStr "..."]> ∅)))).

(** The timestamps 0, 2, 5 and 9 as an array of numbers. *)
Definition markers_0_2_5_9 : list value :=
  [VNum (Fin 0); VNum (Fin 2); VNum (Fin 5); VNum (Fin 9)].

(** The chapter file of the samples. *)
Definition JHN3_mp3 : string := "https://cdn.example.org/JHN_003.mp3".

(** John 3:1-3, spoken from 0 s to 9 s of the chapter file. *)
Definition JHN_3_1_3 : object := descriptor 1 "JHN 3:1-3" JHN3_mp3 [0; 2; 5; 9]%Q.

(** The same timing under a reference without verses. *)
Definition JHN_3 : object := descriptor 1 "JHN 3" JHN3_mp3 [0; 2; 5; 9]%Q.

(** John 3:16-17, spoken from 10 s to 20 s of the chapter file. *)
Definition JHN_3_16_17 : object := descriptor 2 "JHN 3:16-17" JHN3_mp3 [10; 15; 20]%Q.

(** John 4:1-2, spoken from 40 s to 48 s of the file of the next chapter. *)
Definition JHN4_mp3 : string := "https://cdn.example.org/JHN_004.mp3".

Definition JHN_4_1_2 : object := descriptor 4 "JHN 4:1-2" JHN4_mp3 [40; 44; 48]%Q.

(** John 3:36, spoken from 40 s to 48 s of the chapter file. *)
Definition JHN_3_36 : object := descriptor 3 "JHN 3:36" JHN3_mp3 [40; 48]%Q.



(** A descriptor that carries its ordinal under the name [index]. *)
Definition with_index_7 : object := <["index" := VNum (JS.of_nat 7)]> JHN_3_1_3.

(** [{ mode: "queue" }] and [{ mode: "queue", clearQueue: true }] *)
Definition queue_mode : Options.t :=
  {| Options.mode := Some "queue"; Options.autoPlay := None;
     Options.clearQueue := None; Options.position := None |}.

Definition queue_mode_clear : Options.t :=
  {| Options.mode := Some "queue"; Options.autoPlay := None;
     Options.clearQueue := Some true; Options.position := None |}.

(** The world after [commands] ran from the mounted provider. *)
Definition after (commands : M unit) : world := final (commands initialWorld).

(** [loadPlaylist(playlist)] in replace mode, the commit, and the
    [loadeddata] and [canplay] events of the file. *)
Definition loaded (playlist : list object) : M unit :=
  loadPlaylist (Some playlist) Options.empty ;;; commit ;;;
  media_ready ;;; fire 0 ;;; handleCanPlay.

(** The same, then [play()] and the fulfilment of its promise. *)
Definition playing (playlist : list object) : M unit :=
  loaded playlist ;;; play ;;; fire 0 ;;; commit.

(** The element is at the position [q]. *)
Definition at_real_time (q : Q) : M unit := on_audio (Audio.set_currentTime q).

(** The position of the audio element, when there is one. *)
Definition position (w : world) : option Q := Audio.currentTime <$> audioRef w.

(** After a seek: the guard window ends and the element reports the position
    it was given. *)
Definition settle : M unit :=
  registered <~ read pending ;;
  (match position_of is_ClearSeeking 0 registered with
   | Some n => fire n
   | None => ret tt
   end) ;;;
  handleTimeUpdate.

(** ** Further operations of the provider *)

(** [toggleMinimized()] and [setMinimized(minimized)] *)
Definition toggleMinimized : M unit :=
  state <~ read rendered ;;
  updateState (set_isMinimized (negb (isMinimized state))).

Definition setMinimized (minimized : bool) : M unit :=
  updateState (set_isMinimized minimized).

(** The condition of the scanning loop of [seekTo]:
    [virtualTime >= segment.virtualStart && virtualTime <= segment.virtualEnd] *)
Definition in_segment (virtualTime : number) (segment : object) : bool :=
  JS.ge virtualTime (JS.to_number (JS.get segment "virtualStart"))
  && JS.le virtualTime (JS.to_number (JS.get segment "virtualEnd")).

(** ** Descriptors with timing as the timing files give it *)

(** A finite number. *)
Definition number_value (v : value) : option Q :=
  match v with
  | VNum (Fin q) => Some q
  | _ => None
  end.

(** The timestamps of a descriptor when all of them are finite numbers. *)
Definition finite_timestamps (d : object) : option (list Q) :=
  mapM number_value (timestamps_of d).

(** The timestamps of [d] are finite numbers and the last one is not before
    the first one. *)
Definition well_timed (d : object) : bool :=
  match finite_timestamps d with
  | Some (q :: rest) => Qle_bool q (List.last rest q)
  | Some [] => true
  | None => false
  end.

(** ** The segment marks of the player bar (AudioPlayer) *)

(** [a / b] and [a * b]; a division by 0, infinite or [NaN] in JavaScript, is
    read as [NaN]: the source divides by a total duration it has checked to
    be positive. *)
Definition JS_div (a b : number) : number :=
  match a, b with
  | Fin x, Fin y => if Qeq_bool y 0 then NaN else Fin (x / y)
  | _, _ => NaN
  end.

Definition JS_mul (a b : number) : number :=
  match a, b with
  | Fin x, Fin y => Fin (x * y)
  | _, _ => NaN
  end.

(** The callback of [segmentMap.map] followed by [filter(Boolean)]: the marks
    [{ position, index }] of the segments from position [index] on. *)
Fixpoint marks_from (index : nat) (segmentMap : list object) (totalDuration : number)
  : list (number * nat) :=
  match segmentMap with
  | [] => []
  | segment :: rest =>
      let others := marks_from (S index) rest totalDuration in
      match JS.get segment "virtualStart" with
      | VUndefined => others
      | virtualStart =>
          if JS.lt (Fin 0) totalDuration
          then (JS_mul (JS_div (JS.to_number virtualStart) totalDuration) (Fin 100), index)
               :: others
          else others
      end
  end.

(** [segmentMarks] *)
Definition segmentMarks (segmentMap : list object) (totalDuration : number)
  : list (number * nat) :=
  marks_from 0 segmentMap totalDuration.

(** * Properties *)

(** A name is none of the names of a list of literals. *)
Ltac not_a_key :=
  repeat (apply not_elem_of_cons; split; [discriminate|]); apply not_elem_of_nil.

(** ** The segment map builder *)

Lemma buildSegmentMap_Some (playlist : list object) :
  buildSegmentMap (Some playlist) = map_segments (Fin 0) 0 playlist.
Proof. by destruct playlist. Qed.

Lemma map_segments_length (playlist : list object) :
  forall c i, length (map_segments c i playlist) = length playlist.
Proof. induction playlist as [|d rest IH]; intros c i; simpl; [done | by rewrite IH]. Qed.

Lemma map_segments_lookup (playlist : list object) :
  forall c i k d,
    playlist !! k = Some d ->
    map_segments c i playlist !! k = Some (enhance (cumulative c playlist k) (i + k) d).
Proof.
  induction playlist as [|d0 rest IH]; intros c i k d Hk; [done|].
  destruct k as [|k]; simpl in *.
  - injection Hk as ->. by rewrite Nat.add_0_r.
  - rewrite (IH _ _ _ _ Hk). by rewrite Nat.add_succ_r.
Qed.

Lemma map_segments_lookup_inv (playlist : list object) (c : number) (i k : nat)
    (s : object) :
  map_segments c i playlist !! k = Some s ->
  exists d, playlist !! k = Some d /\ s = enhance (cumulative c playlist k) (i + k) d.
Proof.
  intros Hs.
  destruct (playlist !! k) as [d|] eqn:Hd.
  - exists d. split; [done|]. rewrite (map_segments_lookup _ _ _ _ _ Hd) in Hs. congruence.
  - apply lookup_ge_None in Hd. apply lookup_lt_Some in Hs.
    rewrite map_segments_length in Hs. lia.
Qed.

Lemma cumulative_step (playlist : list object) :
  forall c k d,
    playlist !! k = Some d ->
    cumulative c playlist (S k)
    = JS.add (cumulative c playlist k) (segmentDuration_of (timestamps_of d)).
Proof.
  induction playlist as [|d0 rest IH]; intros c k d Hk; [done|].
  destruct k as [|k]; simpl in *.
  - injection Hk as ->. by destruct rest.
  - by rewrite (IH _ _ _ Hk).
Qed.

(** The six properties the builder writes. *)
Lemma enhance_virtualEnd c i d :
  JS.get (enhance c i d) "virtualEnd"
  = VNum (JS.add c (segmentDuration_of (timestamps_of d))).
Proof. unfold JS.get, enhance. by rewrite lookup_insert_eq. Qed.

Lemma enhance_virtualStart c i d : JS.get (enhance c i d) "virtualStart" = VNum c.
Proof. unfold JS.get, enhance. rewrite lookup_insert_ne by done. by rewrite lookup_insert_eq. Qed.

Lemma enhance_duration c i d :
  JS.get (enhance c i d) "duration" = VNum (segmentDuration_of (timestamps_of d)).
Proof.
  unfold JS.get, enhance. do 2 rewrite lookup_insert_ne by done.
  by rewrite lookup_insert_eq.
Qed.

Lemma enhance_index c i d : JS.get (enhance c i d) "index" = VNum (JS.of_nat i).
Proof.
  unfold JS.get, enhance. do 5 rewrite lookup_insert_ne by done.
  by rewrite lookup_insert_eq.
Qed.

Lemma enhance_startTimestamp c i d :
  JS.get (enhance c i d) "startTimestamp"
  = JS.or (JS.nth (timestamps_of d) 0) (VNum (Fin 0)).
Proof.
  unfold JS.get, enhance. do 4 rewrite lookup_insert_ne by done.
  by rewrite lookup_insert_eq.
Qed.

(** Every other property is the descriptor's. *)
Lemma enhance_other c i d (k : string) :
  k ∉ builder_keys -> enhance c i d !! k = d !! k.
Proof.
  intros Hk. unfold builder_keys in Hk.
  repeat (apply not_elem_of_cons in Hk as [? Hk]).
  unfold enhance. by rewrite !lookup_insert_ne by done.
Qed.

Lemma enhance_timestamps c i d : timestamps_of (enhance c i d) = timestamps_of d.
Proof.
  unfold timestamps_of, JS.get. rewrite enhance_other; [done|].
  unfold builder_keys. not_a_key.
Qed.

Lemma buildSegmentMap_lookup_inv (playlist : option (list object)) (k : nat) (s : object) :
  buildSegmentMap playlist !! k = Some s ->
  exists l d, playlist = Some l /\ l !! k = Some d
              /\ s = enhance (cumulative (Fin 0) l k) k d.
Proof.
  destruct playlist as [l|]; [|done].
  rewrite buildSegmentMap_Some. intros Hs.
  destruct (map_segments_lookup_inv _ _ _ _ _ Hs) as (d & Hd & ->).
  by exists l, d.
Qed.

(** C3: in the map built from any playlist, a segment's [virtualEnd] is its
    [virtualStart] plus its [duration], the duration is 0 when the segment
    has fewer than two timestamps, and the [virtualEnd] of a segment is the
    [virtualStart] of its successor. *)
Theorem buildSegmentMap_contiguous (playlist : option (list object)) (i : nat)
    (s : object) :
  buildSegmentMap playlist !! i = Some s ->
  (exists vs d,
      JS.get s "virtualStart" = VNum vs /\ JS.get s "duration" = VNum d
      /\ JS.get s "virtualEnd" = VNum (JS.add vs d))
  /\ ((length (timestamps_of s) < 2)%nat -> JS.get s "duration" = VNum (Fin 0))
  /\ (forall s', buildSegmentMap playlist !! S i = Some s' ->
        JS.get s "virtualEnd" = JS.get s' "virtualStart").
Proof.
  intros Hs.
  destruct (buildSegmentMap_lookup_inv _ _ _ Hs) as (l & d & -> & Hd & ->).
  split; [|split].
  - eexists _, _. rewrite enhance_virtualStart, enhance_duration, enhance_virtualEnd.
    done.
  - rewrite enhance_timestamps, enhance_duration. intros Hlen.
    unfold segmentDuration_of. case_decide; [lia | done].
  - intros s' Hs'.
    destruct (buildSegmentMap_lookup_inv _ _ _ Hs') as (l' & d' & [= <-] & Hd' & ->).
    rewrite enhance_virtualEnd, enhance_virtualStart.
    by rewrite (cumulative_step _ _ _ _ Hd).
Qed.

Lemma buildSegmentMap_contiguous_witness :
  JS.get (enhance (Fin 0) 0 JHN_3_1_3) "virtualEnd"
  = JS.get (enhance (Fin (0 + (9 - 0))) 1 JHN_3_36) "virtualStart".
Proof.
  refine (proj2 (proj2 (buildSegmentMap_contiguous
            (Some [JHN_3_1_3; JHN_3_36]) 0 (enhance (Fin 0) 0 JHN_3_1_3) _)) _ _);
    reflexivity.
Defined.

(** C9, as the code has it: a property of a descriptor whose name is not one
    of the six the builder writes ([index], [startTimestamp], [endTimestamp],
    [duration], [virtualStart], [virtualEnd]) is on the enhanced segment with
    the same value, while [index] is the position in the playlist. *)
Theorem buildSegmentMap_passthrough (playlist : list object) (i : nat) (d : object)
    (k : string) :
  playlist !! i = Some d ->
  k ∉ builder_keys ->
  exists s, buildSegmentMap (Some playlist) !! i = Some s
            /\ s !! k = d !! k
            /\ JS.get s "index" = VNum (JS.of_nat i).
Proof.
  intros Hd Hk. rewrite buildSegmentMap_Some.
  rewrite (map_segments_lookup _ _ _ _ _ Hd). eexists. split; [done|].
  split; [by apply enhance_other | by rewrite enhance_index].
Qed.

Lemma buildSegmentMap_passthrough_witness :
  exists s, buildSegmentMap (Some [JHN_3_1_3; JHN_3_36]) !! 1%nat = Some s
            /\ s !! "sectionNum" = JHN_3_36 !! "sectionNum"
            /\ JS.get s "index" = VNum (JS.of_nat 1).
Proof.
  apply (buildSegmentMap_passthrough [JHN_3_1_3; JHN_3_36] 1 JHN_3_36 "sectionNum").
  - reflexivity.
  - unfold builder_keys. not_a_key.
Defined.

(** C9, as stated, fails: a descriptor that carries an ordinal under the name
    [index], a property the provider never reads, gets the position in the
    playlist in its place. *)
Lemma buildSegmentMap_passthrough_index_overwritten :
  ~ (forall (playlist : list object) (i : nat) (d : object) (k : string) (v : value),
        playlist !! i = Some d ->
        k ∉ interpreted_keys ->
        d !! k = Some v ->
        exists s, buildSegmentMap (Some playlist) !! i = Some s /\ s !! k = Some v).
Proof.
  intros H.
  destruct (H [with_index_7] 0%nat with_index_7 "index" (VNum (JS.of_nat 7)))
    as (s & Hs & Hk).
  - reflexivity.
  - unfold interpreted_keys. not_a_key.
  - reflexivity.
  - injection Hs as <-. vm_compute in Hk. discriminate Hk.
Qed.

(** ** The virtual clock *)

Lemma Math_max_0_nonneg (q : Q) :
  exists v, JS.Math_max (Fin 0) (Fin q) = Fin v /\ (0 <= v)%Q /\ ((0 <= q)%Q -> v = q)
            /\ (forall b, (q <= b)%Q -> (0 <= b)%Q -> (v <= b)%Q).
Proof.
  unfold JS.Math_max. destruct (Qle_bool 0 q) eqn:Hq.
  - apply Qle_bool_iff in Hq. by exists q.
  - exists 0%Q. split; [done|]. split; [apply Qle_refl|]. split; [|done].
    intros Hq'. apply Qle_bool_iff in Hq'. congruence.
Qed.

(** C2, as the code has it: with an active segment [s] and the real time [r]
    of the element, the virtual time is [max(0, s.virtualStart + (r -
    s.startTimestamp))]; it is never negative; when [s.virtualStart] is not
    negative it is [s.virtualStart + (r - s.startTimestamp)] for [r] not
    below [s.startTimestamp], and at most [s.virtualStart] for [r] not above
    [s.startTimestamp]. *)
Theorem calculateVirtualTime_formula (w : world) (audio : Audio.t) (s : object)
    (vs t : Q) :
  audioRef w = Some audio ->
  segmentMapRef w !! currentSegmentRef w = Some s ->
  JS.get s "virtualStart" = VNum (Fin vs) ->
  JS.get s "startTimestamp" = VNum (Fin t) ->
  calculateVirtualTime w
  = JS.Math_max (Fin 0) (Fin (vs + (Audio.currentTime audio - t)))
  /\ exists v, calculateVirtualTime w = Fin v /\ (0 <= v)%Q
               /\ ((t <= Audio.currentTime audio)%Q -> (0 <= vs)%Q ->
                   v = (vs + (Audio.currentTime audio - t))%Q)
               /\ ((Audio.currentTime audio <= t)%Q -> (0 <= vs)%Q -> (v <= vs)%Q).
Proof.
  intros Ha Hs Hvs Ht.
  assert (calculateVirtualTime w
          = JS.Math_max (Fin 0) (Fin (vs + (Audio.currentTime audio - t)))) as Heq.
  { unfold calculateVirtualTime. by rewrite Ha, Hs, Hvs, Ht. }
  split; [done|]. rewrite Heq.
  destruct (Math_max_0_nonneg (vs + (Audio.currentTime audio - t)))
    as (v & Hv & Hpos & Hid & Hle).
  exists v. split; [done|]. split; [done|]. split.
  - intros Hr Hvs0. apply Hid. lra.
  - intros Hr Hvs0. apply Hle; lra.
Qed.

(** The clock 3 s into a segment that starts at 10 s of its file, and the
    clock of the second segment of a playlist, which starts at 40 s of
    another file, while the element is at 0 s of the new file. *)
Lemma calculateVirtualTime_formula_witness :
  (let w := after (playing [JHN_3_16_17; JHN_3_36] ;;; timeupdate 13) in
   calculateVirtualTime w = JS.Math_max (Fin 0) (Fin (0 + (13 - 10)))
   /\ exists v, calculateVirtualTime w = Fin v /\ (0 <= v)%Q
                /\ ((10 <= 13)%Q -> (0 <= 0)%Q -> v = (0 + (13 - 10))%Q)
                /\ ((13 <= 10)%Q -> (0 <= 0)%Q -> (v <= 0)%Q))
  /\ (let w := after (playing [JHN_3_1_3; JHN_4_1_2] ;;; timeupdate 9 ;;; commit) in
      calculateVirtualTime w = JS.Math_max (Fin 0) (Fin (9 + (0 - 40)))
      /\ exists v, calculateVirtualTime w = Fin v /\ (0 <= v)%Q
                   /\ ((40 <= 0)%Q -> (0 <= 9)%Q -> v = (9 + (0 - 40))%Q)
                   /\ ((0 <= 40)%Q -> (0 <= 9)%Q -> (v <= 9)%Q)).
Proof.
  split.
  - apply (calculateVirtualTime_formula
             (after (playing [JHN_3_16_17; JHN_3_36] ;;; timeupdate 13))
             {| Audio.src := JHN3_mp3; Audio.currentTime := 13; Audio.paused := false;
                Audio.readyState := 4; Audio.loads := 1 |}
             (enhance (Fin 0) 0 JHN_3_16_17) 0 10); reflexivity.
  - apply (calculateVirtualTime_formula
             (after (playing [JHN_3_1_3; JHN_4_1_2] ;;; timeupdate 9 ;;; commit))
             {| Audio.src := JHN4_mp3; Audio.currentTime := 0; Audio.paused := true;
                Audio.readyState := 0; Audio.loads := 2 |}
             (enhance (Fin (0 + (9 - 0))) 1 JHN_4_1_2) 9 40); reflexivity.
Defined.

(** C2, as stated, fails: when the second segment of a playlist starts at
    40 s of another file, the element reports the position 0 of the new file
    as the segment becomes active; the provider computes the virtual time
    max(0, 9 + (0 - 40)) = 0, and not 9 + max(0, 0 - 40) = 9. *)
Lemma calculateVirtualTime_below_start :
  ~ (forall (w : world) (audio : Audio.t) (s : object),
        audioRef w = Some audio ->
        segmentMapRef w !! currentSegmentRef w = Some s ->
        number_eqb (calculateVirtualTime w)
                   (toVirtual_spec (Fin (Audio.currentTime audio)) s) = true).
Proof.
  intros H.
  specialize (H (after (playing [JHN_3_1_3; JHN_4_1_2] ;;; timeupdate 9 ;;; commit))
                {| Audio.src := JHN4_mp3; Audio.currentTime := 0; Audio.paused := true;
                   Audio.readyState := 0; Audio.loads := 2 |}
                (enhance (Fin (0 + (9 - 0))) 1 JHN_4_1_2) eq_refl eq_refl).
  vm_compute in H. discriminate H.
Qed.

(** ** [loadPlaylist] and the queue *)

(** C8: [loadPlaylist] with a missing or an empty playlist reports the
    warning and changes nothing else: the state, the refs, the audio element
    and the registered closures are the ones before the call. *)
Theorem loadPlaylist_empty_noop (w : world) (options : Options.t)
    (playlistData : option (list object)) :
  playlistData = None \/ playlistData = Some [] ->
  loadPlaylist playlistData options w
  = Ret tt (put_console (console w ++ ["Empty playlist provided"]) w)
  /\ st (final (loadPlaylist playlistData options w)) = st w.
Proof. by intros [-> | ->]. Qed.

Lemma loadPlaylist_empty_noop_witness :
  loadPlaylist (Some []) Options.empty (after (playing [JHN_3_1_3]))
  = Ret tt (put_console (console (after (playing [JHN_3_1_3])) ++ ["Empty playlist provided"])
              (after (playing [JHN_3_1_3])))
  /\ st (final (loadPlaylist (Some []) Options.empty (after (playing [JHN_3_1_3]))))
     = st (after (playing [JHN_3_1_3])).
Proof.
  apply (loadPlaylist_empty_noop (after (playing [JHN_3_1_3])) Options.empty (Some [])).
  right. reflexivity.
Defined.

(** In queue mode a call returns the world it was given, but for the queue of
    the state and for the console. *)
Lemma loadPlaylist_queue_shape (w : world) (playlistData : option (list object))
    (options : Options.t) :
  Options.mode options = Some "queue" ->
  exists q c,
    loadPlaylist playlistData options w
    = Ret tt (put_console c (put_st (set_queue q (st w)) w)).
Proof.
  intros Hmode. unfold loadPlaylist. rewrite Hmode. simpl.
  destruct playlistData as [[|d rest]|].
  - exists (queue (st w)), (console w ++ ["Empty playlist provided"])%list.
    by destruct w as [[] ?].
  - exists (enqueue (d :: rest) (default false (Options.clearQueue options))
              (default (PosString "end") (Options.position options)) (queueRef w)),
           (console w).
    by destruct w as [[] ?].
  - exists (queue (st w)), (console w ++ ["Empty playlist provided"])%list.
    by destruct w as [[] ?].
Qed.

(** C10: a call of [loadPlaylist] in queue mode leaves the active playlist,
    the segment index, the real and virtual times, the total duration, the
    playing and paused flags, the rate and the error as they were, and does
    nothing to the audio element: no pause, no load, no new position, no
    closure registered. *)
Theorem loadPlaylist_queue_frame (w : world) (playlistData : option (list object))
    (options : Options.t) :
  Options.mode options = Some "queue" ->
  exists w',
    loadPlaylist playlistData options w = Ret tt w'
    /\ currentPlaylist (st w') = currentPlaylist (st w)
    /\ currentSegmentIndex (st w') = currentSegmentIndex (st w)
    /\ currentTime (st w') = currentTime (st w)
    /\ virtualTime (st w') = virtualTime (st w)
    /\ totalDuration (st w') = totalDuration (st w)
    /\ isPlaying (st w') = isPlaying (st w)
    /\ isPaused (st w') = isPaused (st w)
    /\ playbackRate (st w') = playbackRate (st w)
    /\ error (st w') = error (st w)
    /\ isLoading (st w') = isLoading (st w)
    /\ audioRef w' = audioRef w
    /\ segmentMapRef w' = segmentMapRef w
    /\ currentSegmentRef w' = currentSegmentRef w
    /\ pending w' = pending w.
Proof.
  intros Hmode.
  destruct (loadPlaylist_queue_shape w playlistData options Hmode) as (q & c & ->).
  eexists. split; [done|]. by repeat split.
Qed.

Lemma loadPlaylist_queue_frame_witness :
  exists w',
    loadPlaylist (Some [JHN_3_36]) queue_mode (after (playing [JHN_3_1_3])) = Ret tt w'
    /\ currentPlaylist (st w') = Some [JHN_3_1_3]
    /\ isPlaying (st w') = true
    /\ audioRef w' = audioRef (after (playing [JHN_3_1_3])).
Proof.
  destruct (loadPlaylist_queue_frame (after (playing [JHN_3_1_3])) (Some [JHN_3_36])
              queue_mode eq_refl)
    as (w' & Hrun & Hpl & _ & _ & _ & _ & Hplaying & _ & _ & _ & _ & Haudio & _).
  exists w'. split; [exact Hrun|]. split; [exact Hpl|]. split; [exact Hplaying | exact Haudio].
Defined.

(** The queue branch when the queue is kept: the playlist is put once, in
    front for ["start"], at position [i] for a position [i] of the queue, and
    at the end otherwise. *)
Lemma enqueue_keep_start (playlistData : list object) (current : list (list object)) :
  enqueue playlistData false (PosString "start") current = playlistData :: current.
Proof. done. Qed.

Lemma enqueue_keep_end (playlistData : list object) (current : list (list object))
    (s : string) :
  s ≠ "start" ->
  enqueue playlistData false (PosString s) current = (current ++ [playlistData])%list.
Proof.
  intros Hs. unfold enqueue. destruct (String.eqb_spec s "start"); [done | done].
Qed.

Lemma ToInteger_of_nat (i : nat) : ToInteger (JS.of_nat i) = Z.of_nat i.
Proof.
  unfold ToInteger, JS.of_nat.
  assert (Qle_bool 0 (inject_Z (Z.of_nat i)) = true) as ->.
  { apply Qle_bool_iff. unfold Qle. simpl. lia. }
  apply Qfloor_Z.
Qed.

Lemma enqueue_keep_index (playlistData : list object) (current : list (list object))
    (i : nat) :
  (i <= length current)%nat ->
  enqueue playlistData false (PosNumber (JS.of_nat i)) current
  = (take i current ++ playlistData :: drop i current)%list.
Proof.
  intros Hi. unfold enqueue, splice_insert. rewrite ToInteger_of_nat.
  assert ((Z.of_nat i <? 0)%Z = false) as -> by lia.
  rewrite Z.min_l by lia. by rewrite Nat2Z.id.
Qed.

(** The queue branch when the queue is cleared: the new queue starts as
    [[playlistData]], and the insertion that follows puts the playlist in a
    second time. *)
Lemma enqueue_clear_end (playlistData : list object) (current : list (list object)) :
  enqueue playlistData true (PosString "end") current = [playlistData; playlistData].
Proof. done. Qed.

(** C4 at [loadPlaylist([JHN 3:36], { mode: "queue", clearQueue: true })]:
    the queue holds the playlist twice. *)
Theorem loadPlaylist_queue_clear_twice :
  queue (st (after (loadPlaylist (Some [JHN_3_36]) queue_mode_clear)))
  = [[JHN_3_36]; [JHN_3_36]].
Proof. reflexivity. Qed.

(** ** Segment end *)


(** A segment of the map whose address the element reports as its source is
    reached by an assignment of [currentTime] alone. *)
Lemma loadSegmentAudio_same_file (w : world) (a : Audio.t) (i : nat) (s : object)
    (t off : Q) :
  audioRef w = Some a ->
  segmentMapRef w !! i = Some s ->
  src_differs a (JS.get s "audioUrl") = false ->
  JS.get s "startTimestamp" = VNum (Fin t) ->
  loadSegmentAudio (ByIndex i) (Fin off) w
  = Ret tt (put_audioRef (Some (Audio.set_currentTime (t + off) a)) w).
Proof.
  intros Ha Hs Hurl Ht. unfold loadSegmentAudio.
  rewrite Ha, Hs, Hurl, Ht. simpl.
  unfold on_audio. by rewrite Ha.
Qed.




(** ** Playlist end *)

(** The queue is consumed from its head, and [loadPlaylist] in queue mode
    with the default position puts a playlist at its end. *)
Lemma handlePlaylistEnd_takes_head (w : world) (nextPlaylist : list object)
    (remainingQueue : list (list object)) :
  queueRef w = nextPlaylist :: remainingQueue ->
  currentPlaylist (st (final (handlePlaylistEnd w))) = Some nextPlaylist
  /\ queue (st (final (handlePlaylistEnd w))) = remainingQueue
  /\ currentSegmentIndex (st (final (handlePlaylistEnd w))) = 0%nat
  /\ currentTime (st (final (handlePlaylistEnd w))) = Fin 0.
Proof.
  intros Hq.
  unfold handlePlaylistEnd, loadSegmentAudio, audio_play, audio_load_src, audio_seek,
    on_audio, schedule, throw, bind, read, updateState, modify.
  simpl. rewrite Hq. destruct nextPlaylist as [|first rest]; [done|]. simpl.
  destruct (audioRef w) as [a|] eqn:Ha; simpl; [|by rewrite Ha].
  destruct (src_differs a (JS.get first "audioUrl")); simpl; [by rewrite ?Ha|].
  destruct (JS.add (JS.to_number (JS.get first "startTimestamp")) (Fin 0)); simpl;
    by rewrite ?Ha.
Qed.

(** C6 at a queued playlist whose first segment is in the file the element
    holds: [JHN 3:1-3] plays, [JHN 3:36] of the same chapter file is queued
    with the default position, and the element reaches 9 s, the end of the
    only segment.  The queued playlist becomes the active one, but
    [loadSegmentAudio] is given its raw first descriptor, without
    [startTimestamp]: the position assigned is [NaN], the assignment raises
    a [TypeError] before [audio.play()] is reached, the element stays paused
    and no handler that would set [isPlaying] is registered. *)
Theorem handlePlaylistEnd_same_file_not_played :
  let w := after (playing [JHN_3_1_3] ;;;
                  loadPlaylist (Some [JHN_3_36]) queue_mode ;;; commit) in
  let w' := final (timeupdate 9 w) in
  returns (timeupdate 9 w) = false
  /\ currentPlaylist (st w') = Some [JHN_3_36]
  /\ queue (st w') = []
  /\ isPlaying (st w') = false
  /\ (Audio.paused <$> audioRef w') = Some true
  /\ position_of is_QueuedThen 0 (pending w') = None.
Proof. cbv zeta. repeat apply conj; reflexivity. Qed.

(** The same with a queued playlist in another file: the file is loaded and
    [audio.play()] is called, but the [loadeddata] handler holds the position
    [NaN] and fails, and the element plays from 0 s and not from 40 s, where
    the first segment of the playlist starts. *)
Lemma handlePlaylistEnd_other_file_not_positioned :
  let w := after (playing [JHN_3_1_3] ;;;
                  loadPlaylist (Some [JHN_4_1_2]) queue_mode ;;; commit) in
  let w' := final (timeupdate 9 w) in
  returns (timeupdate 9 w) = true
  /\ (Audio.src <$> audioRef w') = Some JHN4_mp3
  /\ (Audio.paused <$> audioRef w') = Some false
  /\ pending w' !! 1%nat = Some (Loadeddata, HandleLoaded NaN)
  /\ returns ((commit ;;; media_ready ;;; fire 1) w') = false
  /\ position (final ((commit ;;; media_ready ;;; fire 1) w')) = Some 0%Q
  /\ (fun s => JS.get s "startTimestamp")
       <$> getCurrentSegment (final ((commit ;;; media_ready ;;; fire 1) w'))
     = Some (VNum (Fin 40)).
Proof. cbv zeta. repeat apply conj; reflexivity. Qed.

(** ** Seek *)

(** C1 at the playlist [JHN 3:16-17; JHN 3:36], whose segments are the
    seconds 10 to 20 and 40 to 48 of one file (total duration 18), playing
    its first segment.  [seekTo(-5)] selects segment 0 but keeps the offset
    -5: the element is sent to 5 s, before the start of the segment, and the
    state shows the virtual time -5 (0 once the guard window is over and the
    element has reported its position).  [seekTo(118)] selects the last segment
    but keeps the offset 108: the element is sent to 148 s, 100 s after the
    end of the segment, and the virtual time is 118, also once the guard
    window is over and the element has reported its position. *)
Theorem seekTo_out_of_range_not_clamped :
  let w := after (playing [JHN_3_16_17; JHN_3_36]) in
  let below := final (seekTo (Fin (-5)) w) in
  let above := final (seekTo (Fin 118) w) in
  totalDuration (st w) = Fin 18
  /\ currentSegmentIndex (st below) = 0%nat
  /\ position below = Some 5%Q
  /\ virtualTime (st below) = Fin (-5)
  /\ position (final ((commit ;;; settle) below)) = Some 5%Q
  /\ virtualTime (st (final ((commit ;;; settle) below))) = Fin 0
  /\ currentSegmentIndex (st above) = 1%nat
  /\ position above = Some 148%Q
  /\ virtualTime (st above) = Fin 118
  /\ virtualTime (st (final ((commit ;;; settle) above))) = Fin 118
  /\ totalDuration (st (final ((commit ;;; settle) above))) = Fin 18.
Proof. cbv zeta. repeat apply conj; reflexivity. Qed.

(** ** Verse resolver *)

Lemma match_reference_JHN_3_1_3 :
  Re.match_reference "JHN 3:1-3" = Some ("JHN", "3", "1-3").
Proof. reflexivity. Qed.

Lemma match_reference_JHN_3 : Re.match_reference "JHN 3" = None.
Proof. reflexivity. Qed.

Lemma parse_verses_1_3 :
  String_of_number <$> parse_verses "1-3" = ["1"; "2"; "3"].
Proof. reflexivity. Qed.

Lemma Qle_bool_trans_true (a b t : Q) :
  (a <= b)%Q -> Qle_bool b t = true -> Qle_bool a t = true.
Proof.
  intros Hab Hbt. apply Qle_bool_iff. apply Qle_bool_iff in Hbt.
  by apply Qle_trans with b.
Qed.

(** The loop of [getCurrentVerse] over three verses with the timestamps 0, 2,
    5 and 9. *)
Lemma find_verse_0_2_5_9 (t : Q) (v1 v2 v3 : number) :
  find_verse (Fin t) markers_0_2_5_9 0 [v1; v2; v3]
  = if Qle_bool 0 t && negb (Qle_bool 2 t) then Some v1
    else if Qle_bool 2 t && negb (Qle_bool 5 t) then Some v2
    else if Qle_bool 5 t && negb (Qle_bool 9 t) then Some v3
    else None.
Proof. reflexivity. Qed.

Lemma parse_verses_1_3_numbers : parse_verses "1-3" = [Fin 1; Fin 2; Fin 3].
Proof. reflexivity. Qed.

(** C7, as the code has it: for the active segment with the timestamps
    [0, 2, 5, 9] and the reference "JHN 3:1-3", the resolver returns the
    label of the second verse for a real time from 2 up to 5 (3.4 is one),
    of the first verse for a time below 2 (-1 is one) and of the third verse
    for a time from 5 on (100 is one): a time outside the timestamps gets the
    first or the last verse, not an error and not [null]. *)
Theorem getCurrentVerse_JHN_3_1_3 (w : world) (a : Audio.t) (segment : object) :
  getCurrentSegment w = Some segment ->
  audioRef w = Some a ->
  JS.get segment "reference" = VStr "JHN 3:1-3" ->
  JS.prop (JS.get segment "timingData") "timestamps" = VArr markers_0_2_5_9 ->
  getCurrentVerse w
  = Ret (Some (if Qle_bool 5 (Audio.currentTime a) then "JHN 3:3"
               else if Qle_bool 2 (Audio.currentTime a) then "JHN 3:2"
               else "JHN 3:1")) w.
Proof.
  intros Hseg Ha Href Hts.
  unfold getCurrentVerse, bind, read, ret, id. cbv beta.
  rewrite Hseg.
  destruct (JS.get segment "timingData") as [| | | | |o] eqn:Htd;
    try discriminate Hts.
  rewrite Hts. cbn [JS.truthy negb orb JS.elements].
  rewrite Href, Ha. cbn [from_option].
  rewrite match_reference_JHN_3_1_3, parse_verses_1_3_numbers, find_verse_0_2_5_9.
  set (t := Audio.currentTime a).
  change (JS.lt (Fin t) (JS.to_number (JS.nth markers_0_2_5_9 0)))
    with (negb (Qle_bool 0 t)).
  destruct (Qle_bool 5 t) eqn:H5.
  - rewrite (Qle_bool_trans_true 0 5 t), (Qle_bool_trans_true 2 5 t) by done.
    cbn [negb andb]. by destruct (Qle_bool 9 t).
  - cbn [andb]. destruct (Qle_bool 2 t) eqn:H2.
    + by rewrite (Qle_bool_trans_true 0 2 t) by done.
    + cbn [negb andb]. rewrite andb_true_r. by destruct (Qle_bool 0 t).
Qed.

Lemma getCurrentVerse_JHN_3_1_3_witness :
  result (getCurrentVerse (after (loaded [JHN_3_1_3] ;;; at_real_time (34 # 10))))
  = Some (Some "JHN 3:2")
  /\ result (getCurrentVerse (after (loaded [JHN_3_1_3] ;;; at_real_time (-1))))
     = Some (Some "JHN 3:1")
  /\ result (getCurrentVerse (after (loaded [JHN_3_1_3] ;;; at_real_time 100)))
     = Some (Some "JHN 3:3").
Proof.
  repeat apply conj.
  - exact (f_equal result
             (getCurrentVerse_JHN_3_1_3
                (after (loaded [JHN_3_1_3] ;;; at_real_time (34 # 10)))
                _ _ eq_refl eq_refl eq_refl eq_refl)).
  - exact (f_equal result
             (getCurrentVerse_JHN_3_1_3
                (after (loaded [JHN_3_1_3] ;;; at_real_time (-1)))
                _ _ eq_refl eq_refl eq_refl eq_refl)).
  - exact (f_equal result
             (getCurrentVerse_JHN_3_1_3
                (after (loaded [JHN_3_1_3] ;;; at_real_time 100))
                _ _ eq_refl eq_refl eq_refl eq_refl)).
Defined.

(** A reference without [:verses] does not match the expression of
    [getCurrentVerse], which then returns [null]. *)
Lemma getCurrentVerse_no_match (w : world) (segment : object) (reference : string) :
  getCurrentSegment w = Some segment ->
  JS.get segment "reference" = VStr reference ->
  Re.match_reference reference = None ->
  getCurrentVerse w = Ret None w.
Proof.
  intros Hseg Href Hre.
  unfold getCurrentVerse, bind, read, ret, id. cbv beta.
  rewrite Hseg, Href, Hre. by destruct (_ || _).
Qed.

(** C7, as stated, fails: with the timestamps [0, 2, 5, 9] and the reference
    "JHN 3", the resolver returns [null] at the real times 3.4, -1 and 100. *)
Lemma getCurrentVerse_JHN_3_null :
  result (getCurrentVerse (after (loaded [JHN_3] ;;; at_real_time (34 # 10))))
  = Some None
  /\ result (getCurrentVerse (after (loaded [JHN_3] ;;; at_real_time (-1))))
     = Some None
  /\ result (getCurrentVerse (after (loaded [JHN_3] ;;; at_real_time 100)))
     = Some None.
Proof. repeat apply conj; reflexivity. Qed.

(** * Further properties *)

(** ** The virtual axis of a built map *)

Lemma mapM_number_value (l : list value) (qs : list Q) :
  mapM number_value l = Some qs -> l = (fun q => VNum (Fin q)) <$> qs.
Proof.
  revert qs. induction l as [|v l IH]; intros qs H.
  - by injection H as <-.
  - simpl in H. destruct (number_value v) as [q|] eqn:Hv; [|done]. simpl in H.
    destruct (mapM number_value l) as [qs'|] eqn:Hl; [|done].
    injection H as <-. simpl. f_equal; [|by apply IH].
    destruct v as [| |[q'|]| | |]; simpl in Hv; try discriminate Hv.
    by injection Hv as ->.
Qed.

Lemma last_cons_default {A} (l : list A) (a d : A) :
  List.last (a :: l) d = List.last l a.
Proof.
  revert a d. induction l as [|b l IH]; intros a d; [done|].
  change (List.last (a :: b :: l) d) with (List.last (b :: l) d).
  by rewrite !IH.
Qed.

Lemma last_fmap_cons {A B} (f : A -> B) (q : A) (rest : list A) (d : option B) :
  List.last (Some <$> (f <$> (q :: rest))) d = Some (f (List.last rest q)).
Proof.
  rewrite !fmap_cons, last_cons_default.
  revert q. induction rest as [|r rest IH]; intros q; [done|].
  rewrite !fmap_cons, !last_cons_default. apply IH.
Qed.

Lemma JS_last_numbers (q : Q) (rest : list Q) :
  JS.last ((fun q => VNum (Fin q)) <$> (q :: rest)) = VNum (Fin (List.last rest q)).
Proof. unfold JS.last. by rewrite last_fmap_cons. Qed.

(** The duration the builder gives to a well timed descriptor is a finite
    number that is not negative. *)
Lemma well_timed_duration (d : object) :
  well_timed d = true ->
  exists dq, segmentDuration_of (timestamps_of d) = Fin dq /\ (0 <= dq)%Q.
Proof.
  unfold well_timed, finite_timestamps. intros H.
  destruct (mapM number_value (timestamps_of d)) as [qs|] eqn:Hqs; [|done].
  apply mapM_number_value in Hqs. rewrite Hqs. unfold segmentDuration_of.
  destruct qs as [|q rest]; [exists 0%Q; split; [done | lra]|].
  case_decide as Hlen; [|exists 0%Q; split; [done | lra]].
  rewrite JS_last_numbers. simpl. eexists. split; [done|].
  apply Qle_bool_iff in H. lra.
Qed.

Lemma well_timed_startTimestamp (d : object) (c : number) (i : nat) :
  well_timed d = true ->
  exists t, JS.get (enhance c i d) "startTimestamp" = VNum (Fin t).
Proof.
  unfold well_timed, finite_timestamps. intros H. rewrite enhance_startTimestamp.
  destruct (mapM number_value (timestamps_of d)) as [qs|] eqn:Hqs; [|done].
  apply mapM_number_value in Hqs. rewrite Hqs.
  destruct qs as [|q rest]; [by exists 0%Q|].
  unfold JS.or, JS.nth. simpl. destruct (Qeq_bool q 0); simpl; by eexists.
Qed.

Lemma totalDuration_of_cons (s : object) (m : list object) :
  m <> [] -> totalDuration_of (s :: m) = totalDuration_of m.
Proof. unfold totalDuration_of. by destruct m. Qed.

Lemma map_segments_ordered (playlist : list object) :
  Forall (fun d => well_timed d = true) playlist ->
  forall (c : Q) (i k : nat) (s : object),
    map_segments (Fin c) i playlist !! k = Some s ->
    exists vs ve T,
      JS.get s "virtualStart" = VNum (Fin vs)
      /\ JS.get s "virtualEnd" = VNum (Fin ve)
      /\ totalDuration_of (map_segments (Fin c) i playlist) = Fin T
      /\ (c <= vs)%Q /\ (vs <= ve)%Q /\ (ve <= T)%Q.
Proof.
  induction 1 as [|d rest Hd Hrest IH]; intros c i k s Hs; [done|].
  destruct (well_timed_duration d Hd) as (dq & Hdq & Hpos).
  simpl in Hs. simpl map_segments. rewrite Hdq in *. simpl JS.add in *.
  destruct k as [|k].
  - injection Hs as <-. rewrite enhance_virtualStart, enhance_virtualEnd, Hdq.
    simpl JS.add. destruct rest as [|d' rest'].
    + exists c, (c + dq)%Q, (c + dq)%Q. unfold totalDuration_of. simpl.
      rewrite enhance_virtualEnd, Hdq. simpl. repeat split; (done || lra).
    + destruct (IH (c + dq)%Q (S i) 0%nat _ eq_refl) as (vs & ve & T & _ & _ & HT & ? & ? & ?).
      exists c, (c + dq)%Q, T. rewrite totalDuration_of_cons by done.
      repeat split; (done || lra).
  - destruct (IH (c + dq)%Q (S i) k s Hs) as (vs & ve & T & Hvs & Hve & HT & ? & ? & ?).
    exists vs, ve, T. rewrite totalDuration_of_cons.
    + repeat split; (done || lra).
    + intros Hnil. simpl in Hs. by rewrite Hnil in Hs.
Qed.

(** X1: in the map built from a playlist whose descriptors are well timed,
    every segment has [0 <= virtualStart <= virtualEnd <= totalDuration]. *)
Theorem buildSegmentMap_ordered (playlist : list object) (i : nat) (s : object) :
  Forall (fun d => well_timed d = true) playlist ->
  buildSegmentMap (Some playlist) !! i = Some s ->
  exists vs ve T,
    JS.get s "virtualStart" = VNum (Fin vs)
    /\ JS.get s "virtualEnd" = VNum (Fin ve)
    /\ totalDuration_of (buildSegmentMap (Some playlist)) = Fin T
    /\ (0 <= vs)%Q /\ (vs <= ve)%Q /\ (ve <= T)%Q.
Proof.
  intros Hwt. rewrite buildSegmentMap_Some. apply (map_segments_ordered _ Hwt).
Qed.

Lemma buildSegmentMap_ordered_witness :
  exists vs ve T,
    JS.get (enhance (Fin (0 + (20 - 10))) 1 JHN_3_36) "virtualStart" = VNum (Fin vs)
    /\ JS.get (enhance (Fin (0 + (20 - 10))) 1 JHN_3_36) "virtualEnd" = VNum (Fin ve)
    /\ totalDuration_of (buildSegmentMap (Some [JHN_3_16_17; JHN_3_36])) = Fin T
    /\ (0 <= vs)%Q /\ (vs <= ve)%Q /\ (ve <= T)%Q.
Proof.
  apply (buildSegmentMap_ordered [JHN_3_16_17; JHN_3_36] 1).
  - repeat constructor.
  - reflexivity.
Defined.

(** ** The seek engine *)

Lemma find_segment_Some (x : number) (m : list object) :
  forall (i0 i : nat) (s : object),
    find_segment x i0 m = Some (i, s) ->
    exists k, i = (i0 + k)%nat /\ m !! k = Some s /\ in_segment x s = true
              /\ forall j s', (j < k)%nat -> m !! j = Some s' -> in_segment x s' = false.
Proof.
  induction m as [|s0 m IH]; intros i0 i s H; [done|].
  simpl in H. fold (in_segment x s0) in H.
  destruct (in_segment x s0) eqn:Hin.
  - injection H as <- <-. exists 0%nat. rewrite Nat.add_0_r.
    split; [done|]. split; [done|]. split; [done|]. intros j s' Hj. lia.
  - destruct (IH _ _ _ H) as (k & -> & Hk & Hs & Hbefore).
    exists (S k). split; [lia|]. split; [done|]. split; [done|].
    intros [|j] s' Hj Hs'; [by injection Hs' as <-|].
    apply (Hbefore j); [lia | done].
Qed.

Lemma find_segment_None (x : number) (m : list object) :
  forall i0, find_segment x i0 m = None ->
             forall j s', m !! j = Some s' -> in_segment x s' = false.
Proof.
  induction m as [|s0 m IH]; intros i0 H j s' Hs'; [done|].
  simpl in H. fold (in_segment x s0) in H.
  destruct (in_segment x s0) eqn:Hin; [done|].
  destruct j as [|j]; [by injection Hs' as <-|]. by apply (IH _ H j).
Qed.

(** X2: on a map that is not empty, the target of a seek is a segment of the
    map: the earliest segment whose virtual interval holds the time, and,
    when no interval holds it, the first segment for a negative time and the
    last segment otherwise. *)
Theorem seek_target_spec (x : number) (m : list object) :
  m <> [] ->
  exists i s,
    seek_target x m = Some (i, s) /\ m !! i = Some s
    /\ ((in_segment x s = true
         /\ forall j s', (j < i)%nat -> m !! j = Some s' -> in_segment x s' = false)
        \/ ((forall j s', m !! j = Some s' -> in_segment x s' = false)
            /\ i = if JS.lt x (Fin 0) then 0%nat else (length m - 1)%nat)).
Proof.
  intros Hm. unfold seek_target.
  destruct (find_segment x 0 m) as [[i s]|] eqn:Hfind.
  - destruct (find_segment_Some _ _ _ _ _ Hfind) as (k & -> & Hk & Hin & Hbefore).
    exists k, s. simpl. split; [done|]. split; [done|]. left. by split.
  - pose proof (find_segment_None _ _ _ Hfind) as Hnone.
    destruct (JS.lt x (Fin 0)).
    + destruct m as [|s0 m']; [done|]. exists 0%nat, s0.
      split; [done|]. split; [done|]. right. by split.
    + destruct (lookup_lt_is_Some_2 m (length m - 1)) as [s Hs].
      { destruct m; [done | simpl; lia]. }
      exists (length m - 1)%nat, s. rewrite Hs.
      split; [done|]. split; [done|]. right. by split.
Qed.

Lemma seek_target_spec_witness :
  exists i s,
    seek_target (Fin 10) (buildSegmentMap (Some [JHN_3_16_17; JHN_3_36])) = Some (i, s)
    /\ buildSegmentMap (Some [JHN_3_16_17; JHN_3_36]) !! i = Some s
    /\ ((in_segment (Fin 10) s = true
         /\ forall j s', (j < i)%nat ->
                         buildSegmentMap (Some [JHN_3_16_17; JHN_3_36]) !! j = Some s' ->
                         in_segment (Fin 10) s' = false)
        \/ ((forall j s', buildSegmentMap (Some [JHN_3_16_17; JHN_3_36]) !! j = Some s' ->
                          in_segment (Fin 10) s' = false)
            /\ i = if JS.lt (Fin 10) (Fin 0) then 0%nat
                   else (length (buildSegmentMap (Some [JHN_3_16_17; JHN_3_36])) - 1)%nat)).
Proof.
  apply (seek_target_spec (Fin 10) (buildSegmentMap (Some [JHN_3_16_17; JHN_3_36]))).
  discriminate.
Defined.

Lemma map_segments_covers (playlist : list object) :
  Forall (fun d => well_timed d = true) playlist ->
  forall (c x T : Q) (i : nat),
    playlist <> [] ->
    totalDuration_of (map_segments (Fin c) i playlist) = Fin T ->
    (c <= x)%Q -> (x <= T)%Q ->
    exists j s, find_segment (Fin x) i (map_segments (Fin c) i playlist) = Some (j, s).
Proof.
  induction 1 as [|d rest Hd Hrest IH]; intros c x T i Hne HT Hcx HxT; [done|].
  destruct (well_timed_duration d Hd) as (dq & Hdq & Hpos).
  simpl. simpl in HT. rewrite Hdq in *. simpl JS.add in *.
  rewrite enhance_virtualStart, enhance_virtualEnd, Hdq. simpl.
  assert (Qle_bool c x = true) as -> by by apply Qle_bool_iff.
  destruct (Qle_bool x (c + dq)) eqn:Hx; simpl; [by eexists _, _|].
  assert (~ (x <= c + dq)%Q) as Hgt.
  { intros Hle. apply Qle_bool_iff in Hle. congruence. }
  destruct rest as [|d' rest'].
  - unfold totalDuration_of in HT. simpl in HT.
    rewrite enhance_virtualEnd, Hdq in HT. simpl in HT. injection HT as <-. lra.
  - rewrite totalDuration_of_cons in HT by done.
    apply (IH (c + dq)%Q x T (S i)); [done | done | lra | done].
Qed.

(** X3: in the map built from a playlist of well timed descriptors, every
    time from 0 to the total duration lies in the interval of a segment: the
    scanning loop of [seekTo] finds a segment, and the clamping to the first
    or the last segment is not needed. *)
Theorem find_segment_covers (playlist : list object) (x T : Q) :
  Forall (fun d => well_timed d = true) playlist ->
  playlist <> [] ->
  totalDuration_of (buildSegmentMap (Some playlist)) = Fin T ->
  (0 <= x)%Q -> (x <= T)%Q ->
  exists i s,
    seek_target (Fin x) (buildSegmentMap (Some playlist)) = Some (i, s)
    /\ buildSegmentMap (Some playlist) !! i = Some s
    /\ in_segment (Fin x) s = true.
Proof.
  intros Hwt Hne HT H0 HxT. rewrite buildSegmentMap_Some in *.
  destruct (map_segments_covers _ Hwt 0 x T 0%nat Hne HT H0 HxT) as (i & s & Hfind).
  exists i, s. unfold seek_target. rewrite Hfind. split; [done|].
  destruct (find_segment_Some _ _ _ _ _ Hfind) as (k & -> & Hk & Hin & _).
  by split.
Qed.

Lemma find_segment_covers_witness :
  exists i s,
    seek_target (Fin 14) (buildSegmentMap (Some [JHN_3_16_17; JHN_3_36])) = Some (i, s)
    /\ buildSegmentMap (Some [JHN_3_16_17; JHN_3_36]) !! i = Some s
    /\ in_segment (Fin 14) s = true.
Proof.
  apply (find_segment_covers [JHN_3_16_17; JHN_3_36] 14 (0 + (20 - 10) + (48 - 40))).
  - repeat constructor.
  - discriminate.
  - reflexivity.
  - unfold Qle; simpl; lia.
  - unfold Qle; simpl; lia.
Defined.

(** The combinators of commands, unfolded. *)
Ltac run :=
  unfold bind, read, modify, ret, throw, updateState, schedule, log, on_audio in *.

(** X4: a seek whose target is the active segment moves the element to
    [startTimestamp + (virtualTime - virtualStart)] without touching its
    source, shows the virtual time at once, keeps the segment index, raises
    the seeking guard and registers its release after 200 ms. *)
Theorem seekTo_within_active_segment (w : world) (a : Audio.t) (s : object)
    (x vs t : Q) :
  audioRef w = Some a ->
  seek_target (Fin x) (segmentMapRef w) = Some (currentSegmentRef w, s) ->
  JS.get s "virtualStart" = VNum (Fin vs) ->
  JS.get s "startTimestamp" = VNum (Fin t) ->
  exists w' a',
    seekTo (Fin x) w = Ret tt w'
    /\ audioRef w' = Some a'
    /\ Audio.currentTime a' = (t + (x - vs))%Q
    /\ Audio.src a' = Audio.src a
    /\ Audio.loads a' = Audio.loads a
    /\ virtualTime (st w') = Fin x
    /\ virtualTimeRef w' = Fin x
    /\ currentSegmentIndex (st w') = currentSegmentIndex (st w)
    /\ isSeekingRef w' = true
    /\ last (pending w') = Some (Timeout 200, ClearSeeking).
Proof.
  intros Ha Htarget Hvs Ht.
  unfold seekTo, audio_seek, audio_play. run. rewrite Ha, Htarget, Hvs, Ht.
  simpl. rewrite Nat.eqb_refl. simpl. rewrite Ha. simpl.
  destruct (isPlayingRef w && Audio.paused a) eqn:Hresume; simpl.
  - eexists _, _. split; [reflexivity|]. simpl. rewrite last_snoc. by repeat split.
  - eexists _, _. split; [reflexivity|]. simpl. rewrite last_snoc. by repeat split.
Qed.

Lemma seekTo_within_active_segment_witness :
  exists w' a',
    seekTo (Fin 4) (after (playing [JHN_3_16_17; JHN_3_36])) = Ret tt w'
    /\ audioRef w' = Some a'
    /\ Audio.currentTime a' = (10 + (4 - 0))%Q
    /\ virtualTime (st w') = Fin 4.
Proof.
  destruct (seekTo_within_active_segment (after (playing [JHN_3_16_17; JHN_3_36]))
              {| Audio.src := JHN3_mp3; Audio.currentTime := 10; Audio.paused := false;
                 Audio.readyState := 4; Audio.loads := 1 |}
              (enhance (Fin 0) 0 JHN_3_16_17) 4 0 10 eq_refl eq_refl eq_refl eq_refl)
    as (w' & a' & Hrun & Ha' & Htime & _ & _ & Hvt & _).
  exists w', a'. repeat split; assumption.
Defined.

(** X5: a seek whose target is another segment pauses the element, makes the
    target the current segment of the state and shows the virtual time; when
    the file of the target is the one the element holds the element is moved
    to [startTimestamp + (virtualTime - virtualStart)] without a load, and
    otherwise the file is loaded and that position is kept for the
    [loadeddata] handler. *)
Theorem seekTo_to_other_segment (w : world) (a : Audio.t) (i : nat) (s : object)
    (x vs t : Q) :
  audioRef w = Some a ->
  seek_target (Fin x) (segmentMapRef w) = Some (i, s) ->
  segmentMapRef w !! i = Some s ->
  i <> currentSegmentRef w ->
  JS.get s "virtualStart" = VNum (Fin vs) ->
  JS.get s "startTimestamp" = VNum (Fin t) ->
  exists w' a',
    seekTo (Fin x) w = Ret tt w'
    /\ audioRef w' = Some a'
    /\ Audio.paused a' = true
    /\ currentSegmentIndex (st w') = i
    /\ virtualTime (st w') = Fin x
    /\ isSeekingRef w' = true
    /\ last (pending w') = Some (Timeout 200, ClearSeeking)
    /\ if src_differs a (JS.get s "audioUrl")
       then Audio.src a' = String_of (JS.get s "audioUrl")
            /\ Audio.loads a' = S (Audio.loads a)
            /\ isLoading (st w') = true
            /\ (Loadeddata, HandleLoaded (Fin (t + (x - vs)))) ∈ pending w'
       else Audio.src a' = Audio.src a
            /\ Audio.loads a' = Audio.loads a
            /\ Audio.currentTime a' = (t + (x - vs))%Q.
Proof.
  intros Ha Htarget Hi Hne Hvs Ht.
  unfold seekTo, loadSegmentAudio, audio_pause, audio_seek, audio_load_src. run.
  rewrite Ha, Htarget, Hvs, Ht. simpl.
  assert ((i =? currentSegmentRef w)%nat = false) as -> by by apply Nat.eqb_neq.
  simpl. rewrite Ha. simpl. rewrite Hi, Ht.
  destruct (src_differs a (JS.get s "audioUrl")) eqn:Hsrc; simpl;
    (replace (src_differs (Audio.set_paused true a) (JS.get s "audioUrl"))
       with (src_differs a (JS.get s "audioUrl")) by by destruct (JS.get s "audioUrl"));
    rewrite Hsrc; simpl.
  - destruct (isPlayingRef w); simpl; eexists _, _; (split; [reflexivity|]); simpl;
      rewrite last_snoc; repeat split; try done;
      rewrite !elem_of_app, !list_elem_of_singleton; tauto.
  - destruct (isPlayingRef w); simpl; eexists _, _; (split; [reflexivity|]); simpl;
      rewrite last_snoc; by repeat split.
Qed.

Lemma seekTo_to_other_segment_witness :
  exists w' a',
    seekTo (Fin 14) (after (playing [JHN_3_16_17; JHN_3_36])) = Ret tt w'
    /\ audioRef w' = Some a'
    /\ currentSegmentIndex (st w') = 1%nat
    /\ virtualTime (st w') = Fin 14.
Proof.
  destruct (seekTo_to_other_segment (after (playing [JHN_3_16_17; JHN_3_36]))
              {| Audio.src := JHN3_mp3; Audio.currentTime := 10; Audio.paused := false;
                 Audio.readyState := 4; Audio.loads := 1 |}
              1 (enhance (Fin (0 + (20 - 10))) 1 JHN_3_36) 14 (0 + (20 - 10)) 40
              eq_refl eq_refl eq_refl ltac:(discriminate) eq_refl eq_refl)
    as (w' & a' & Hrun & Ha' & _ & Hi & Hvt & _).
  exists w', a'. repeat split; assumption.
Defined.

Lemma seek_target_Some (x : number) (m : list object) :
  m <> [] -> exists i s, seek_target x m = Some (i, s).
Proof.
  intros Hm. unfold seek_target. destruct (find_segment x 0 m) as [[i s]|]; [by eexists _, _|].
  destruct m as [|s0 m']; [done|]. destruct (JS.lt x (Fin 0)); simpl; [by eexists _, _|].
  destruct (lookup_lt_is_Some_2 (s0 :: m') (length m' - 0)) as [s Hs]; [simpl; lia|].
  rewrite Hs. by eexists _, _.
Qed.

(** X6: whatever the target, a seek on a loaded playlist leaves the seeking
    guard up, also when the seek fails on a position that is not a number,
    and while the guard is up the [timeupdate] listener changes nothing. *)
Theorem seekTo_raises_guard (w : world) (a : Audio.t) (x : number) :
  audioRef w = Some a ->
  segmentMapRef w <> [] ->
  isSeekingRef (final (seekTo x w)) = true
  /\ handleTimeUpdate (final (seekTo x w)) = Ret tt (final (seekTo x w)).
Proof.
  intros Ha Hm.
  assert (isSeekingRef (final (seekTo x w)) = true) as Hguard.
  { destruct (seek_target_Some x _ Hm) as (i & s & Htarget).
    unfold seekTo, loadSegmentAudio, audio_pause, audio_seek, audio_play, audio_load_src.
    run. rewrite Ha, Htarget. simpl.
    destruct (negb (i =? currentSegmentRef w)%nat); simpl; rewrite ?Ha; simpl.
    - destruct (segmentMapRef w !! i) as [s'|]; simpl.
      + destruct (src_differs _ _); simpl.
        * by destruct (isPlayingRef w).
        * destruct (JS.add _ _); simpl; [by destruct (isPlayingRef w) | done].
      + by destruct (isPlayingRef w).
    - destruct (JS.add _ _); simpl; [|done]. rewrite Ha. simpl.
      by destruct (isPlayingRef w && Audio.paused a). }
  split; [done|]. unfold handleTimeUpdate. run. by rewrite Hguard.
Qed.

Lemma seekTo_raises_guard_witness :
  isSeekingRef (final (seekTo NaN (after (playing [JHN_3_16_17; JHN_3_36])))) = true
  /\ handleTimeUpdate (final (seekTo NaN (after (playing [JHN_3_16_17; JHN_3_36]))))
     = Ret tt (final (seekTo NaN (after (playing [JHN_3_16_17; JHN_3_36])))).
Proof.
  apply (seekTo_raises_guard (after (playing [JHN_3_16_17; JHN_3_36]))
           {| Audio.src := JHN3_mp3; Audio.currentTime := 10; Audio.paused := false;
              Audio.readyState := 4; Audio.loads := 1 |} NaN eq_refl).
  discriminate.
Defined.

(** ** The playback controller *)

Lemma Qle_bool_false (a b : Q) : Qle_bool a b = false <-> (b < a)%Q.
Proof.
  split.
  - intros H. apply Qnot_le_lt. intros Hle. apply Qle_bool_iff in Hle. congruence.
  - intros H. destruct (Qle_bool a b) eqn:Hab; [|done].
    apply Qle_bool_iff in Hab. lra.
Qed.

(** X7: [setPlaybackRate] ignores a rate below 0.25 or above 2 and leaves the
    world as it is; a rate from 0.25 to 2 becomes the rate of the state, and
    nothing else changes. *)
Theorem setPlaybackRate_guard (w : world) (r : Q) :
  ((r < 25 # 100)%Q \/ (2 < r)%Q -> setPlaybackRate (Fin r) w = Ret tt w)
  /\ ((25 # 100 <= r)%Q -> (r <= 2)%Q ->
      setPlaybackRate (Fin r) w = Ret tt (put_st (set_playbackRate (Fin r) (st w)) w)).
Proof.
  unfold setPlaybackRate, JS.lt. split.
  - intros [Hr | Hr].
    + apply Qle_bool_false in Hr. by rewrite Hr.
    + apply Qle_bool_false in Hr. rewrite Hr. by rewrite orb_true_r.
  - intros Hlo Hhi. apply Qle_bool_iff in Hlo, Hhi. by rewrite Hlo, Hhi.
Qed.

Lemma setPlaybackRate_guard_witness :
  setPlaybackRate (Fin 3) initialWorld = Ret tt initialWorld
  /\ setPlaybackRate (Fin (15 # 10)) initialWorld
     = Ret tt (put_st (set_playbackRate (Fin (15 # 10)) (st initialWorld)) initialWorld).
Proof.
  split.
  - apply (proj1 (setPlaybackRate_guard initialWorld 3)). right. reflexivity.
  - apply (proj2 (setPlaybackRate_guard initialWorld (15 # 10))); discriminate.
Defined.

(** X8: [playSegment] with an index outside the segment map does nothing;
    [previousSegment] does nothing when the state of the last render is at
    the first segment, and [nextSegment] does nothing when that state is at
    the last segment of its playlist or has no playlist. *)
Theorem navigation_bounds (w : world) :
  (forall index : Z,
      (index < 0)%Z \/ (Z.of_nat (length (segmentMapRef w)) <= index)%Z ->
      playSegment index w = Ret tt w)
  /\ (currentSegmentIndex (rendered w) = 0%nat -> previousSegment w = Ret tt w)
  /\ (forall playlist,
         currentPlaylist (rendered w) = Some playlist ->
         S (currentSegmentIndex (rendered w)) = length playlist ->
         nextSegment w = Ret tt w)
  /\ (currentPlaylist (rendered w) = None -> nextSegment w = Ret tt w).
Proof.
  repeat split.
  - intros index Hindex. unfold playSegment. run.
    destruct (index <? 0)%Z eqn:Hneg; [done|]. simpl.
    destruct (Z.of_nat (length (segmentMapRef w)) <=? index)%Z eqn:Hge; [done|]. lia.
  - intros H0. unfold previousSegment. run. by rewrite H0.
  - intros playlist Hpl Hlast. unfold nextSegment. run. rewrite Hpl.
    destruct (Z.of_nat (length playlist) <=? Z.of_nat (currentSegmentIndex (rendered w)) + 1)%Z
      eqn:Hge; [done|]. lia.
  - intros Hpl. unfold nextSegment. run. by rewrite Hpl.
Qed.

Lemma navigation_bounds_witness :
  playSegment 2 (after (playing [JHN_3_16_17; JHN_3_36]))
  = Ret tt (after (playing [JHN_3_16_17; JHN_3_36]))
  /\ previousSegment (after (playing [JHN_3_16_17; JHN_3_36]))
     = Ret tt (after (playing [JHN_3_16_17; JHN_3_36]))
  /\ nextSegment (after (playing [JHN_3_36])) = Ret tt (after (playing [JHN_3_36])).
Proof.
  split; [|split].
  - apply (proj1 (navigation_bounds (after (playing [JHN_3_16_17; JHN_3_36])))).
    right. vm_compute. discriminate.
  - apply (proj1 (proj2 (navigation_bounds (after (playing [JHN_3_16_17; JHN_3_36]))))).
    reflexivity.
  - apply (proj1 (proj2 (proj2 (navigation_bounds (after (playing [JHN_3_36])))))
             [JHN_3_36]); reflexivity.
Defined.

(** X9: [playSegment] with an index of the segment map makes it the current
    segment of the state; when the element reports the address of the segment
    as its source, the element is moved to the start of the segment without a
    load; a call of [play()] is scheduled exactly when the state of the last
    render says playing, whatever the updates issued since. *)
Theorem playSegment_in_range (w : world) (a : Audio.t) (i : nat) (s : object) (t : Q) :
  audioRef w = Some a ->
  segmentMapRef w !! i = Some s ->
  src_differs a (JS.get s "audioUrl") = false ->
  JS.get s "startTimestamp" = VNum (Fin t) ->
  exists w' a',
    playSegment (Z.of_nat i) w = Ret tt w'
    /\ currentSegmentIndex (st w') = i
    /\ audioRef w' = Some a'
    /\ (Audio.currentTime a' == t)%Q
    /\ Audio.src a' = Audio.src a
    /\ Audio.loads a' = Audio.loads a
    /\ pending w'
       = (pending w ++ if isPlaying (rendered w) then [(Timeout 50, CallPlay)] else [])%list.
Proof.
  intros Ha Hs Hurl Ht. pose proof (lookup_lt_Some _ _ _ Hs) as Hlen.
  unfold playSegment. run.
  assert ((Z.of_nat i <? 0)%Z = false) as -> by lia.
  assert ((Z.of_nat (length (segmentMapRef w)) <=? Z.of_nat i)%Z = false) as -> by lia.
  simpl. rewrite Nat2Z.id.
  erewrite (loadSegmentAudio_same_file _ a i s t 0); [|done..].
  simpl. destruct (isPlaying (rendered w)); simpl.
  - eexists _, _. split; [reflexivity|]. simpl. repeat split; try done. apply Qplus_0_r.
  - eexists _, _. split; [reflexivity|]. simpl. rewrite app_nil_r.
    repeat split; try done. apply Qplus_0_r.
Qed.

(** The state of the last render says playing, and [pause()] has been called
    since: [play()] is scheduled all the same. *)
Lemma playSegment_in_range_witness :
  let w := after (playing [JHN_3_16_17; JHN_3_36] ;;; pause) in
  isPlaying (st w) = false
  /\ exists w' a',
       playSegment 1 w = Ret tt w'
       /\ currentSegmentIndex (st w') = 1%nat
       /\ audioRef w' = Some a'
       /\ (Audio.currentTime a' == 40)%Q
       /\ pending w' = (pending w ++ [(Timeout 50, CallPlay)])%list.
Proof.
  cbv zeta. split; [reflexivity|].
  destruct (playSegment_in_range (after (playing [JHN_3_16_17; JHN_3_36] ;;; pause))
              {| Audio.src := JHN3_mp3; Audio.currentTime := 10; Audio.paused := true;
                 Audio.readyState := 4; Audio.loads := 1 |}
              1 (enhance (Fin (0 + (20 - 10))) 1 JHN_3_36) 40
              eq_refl eq_refl eq_refl eq_refl)
    as (w' & a' & Hrun & Hi & Ha' & Htime & _ & _ & Hpending).
  exists w', a'. split; [exact Hrun|]. split; [exact Hi|]. split; [exact Ha'|].
  split; [exact Htime|]. exact Hpending.
Defined.

(** X10: [stop()] pauses the element, takes it back to the start of the first
    segment and resets the state to segment 0 and to the times 0, neither
    playing nor paused; the queue and the playlist are kept. *)
Theorem stop_resets (w : world) (a : Audio.t) :
  audioRef w = Some a ->
  (forall s, segmentMapRef w !! 0%nat = Some s ->
             exists t, JS.get s "startTimestamp" = VNum (Fin t)) ->
  exists w' a',
    stop w = Ret tt w'
    /\ audioRef w' = Some a'
    /\ Audio.paused a' = true
    /\ isPlayingRef w' = false
    /\ isPlaying (st w') = false
    /\ isPaused (st w') = false
    /\ currentSegmentIndex (st w') = 0%nat
    /\ currentTime (st w') = Fin 0
    /\ virtualTime (st w') = Fin 0
    /\ currentPlaylist (st w') = currentPlaylist (st w)
    /\ queue (st w') = queue (st w)
    /\ totalDuration (st w') = totalDuration (st w).
Proof.
  intros Ha Hfirst.
  unfold stop, loadSegmentAudio, audio_pause, audio_seek, audio_load_src. run.
  rewrite Ha. simpl. rewrite ?Ha. simpl.
  destruct (segmentMapRef w) as [|s0 m] eqn:Hm; simpl.
  - eexists _, _. split; [reflexivity|]. by repeat split.
  - destruct (Hfirst s0 eq_refl) as [t Ht]. rewrite Hm. simpl. rewrite Ht. simpl.
    destruct (src_differs _ _); simpl;
      eexists _, _; (split; [reflexivity|]); by repeat split.
Qed.

Lemma stop_resets_witness :
  exists w' a',
    stop (after (playing [JHN_3_16_17; JHN_3_36] ;;; timeupdate 13)) = Ret tt w'
    /\ audioRef w' = Some a'
    /\ Audio.paused a' = true
    /\ isPlaying (st w') = false
    /\ virtualTime (st w') = Fin 0.
Proof.
  destruct (stop_resets (after (playing [JHN_3_16_17; JHN_3_36] ;;; timeupdate 13))
              {| Audio.src := JHN3_mp3; Audio.currentTime := 13; Audio.paused := false;
                 Audio.readyState := 4; Audio.loads := 1 |} eq_refl)
    as (w' & a' & Hrun & Ha' & Hp & _ & Hplaying & _ & _ & _ & Hvt & _).
  - intros s Hs. change (Some (enhance (Fin 0) 0 JHN_3_16_17) = Some s) in Hs.
    injection Hs as <-. by exists 10%Q.
  - exists w', a'. repeat split; assumption.
Defined.

(** X11: [play()] starts the element but leaves the playing flag to the
    promise.  When the promise is fulfilled the state is playing, not paused
    and without error; when it is rejected the error "Failed to play audio"
    is set and the playing and paused flags stay as they were. *)
Theorem play_settles (w : world) (a : Audio.t) :
  audioRef w = Some a ->
  let n := length (pending w) in
  let started := final (play w) in
  let fulfilled := final (fire n started) in
  let rejected := final (fire (S n) started) in
  (Audio.paused <$> audioRef started) = Some false
  /\ st started = st w
  /\ isPlayingRef started = isPlayingRef w
  /\ isPlaying (st fulfilled) = true
  /\ isPaused (st fulfilled) = false
  /\ error (st fulfilled) = None
  /\ isPlayingRef fulfilled = true
  /\ error (st rejected) = Some "Failed to play audio"
  /\ isPlaying (st rejected) = isPlaying (st w)
  /\ isPaused (st rejected) = isPaused (st w)
  /\ isPlayingRef rejected = isPlayingRef w.
Proof.
  intros Ha n started fulfilled rejected.
  assert (started
          = put_pending (pending w ++ [(PlayFulfilled, PlayThen); (PlayRejected, PlayCatch)])
              (put_audioRef (Some (Audio.set_paused false a)) w)) as Hstarted.
  { unfold started, play, audio_play. run. rewrite Ha. simpl. rewrite Ha. simpl.
    by rewrite <- app_assoc. }
  assert (pending started !! n = Some (PlayFulfilled, PlayThen)) as Hn.
  { rewrite Hstarted. simpl. unfold n. by rewrite lookup_app_r, Nat.sub_diag by lia. }
  assert (pending started !! S n = Some (PlayRejected, PlayCatch)) as HSn.
  { rewrite Hstarted. simpl. unfold n. rewrite lookup_app_r by lia.
    by replace (S (length (pending w)) - length (pending w))%nat with 1%nat by lia. }
  unfold fulfilled, rejected, fire. run. rewrite Hn, HSn. simpl.
  rewrite Hstarted. simpl. by repeat split.
Qed.

Lemma play_settles_witness :
  isPlaying (st (final (fire 0 (final (play (after (loaded [JHN_3_36]))))))) = true
  /\ error (st (final (fire 1 (final (play (after (loaded [JHN_3_36])))))))
     = Some "Failed to play audio".
Proof.
  destruct (play_settles (after (loaded [JHN_3_36]))
              {| Audio.src := JHN3_mp3; Audio.currentTime := 40; Audio.paused := true;
                 Audio.readyState := 4; Audio.loads := 1 |} eq_refl)
    as (_ & _ & _ & Hplaying & _ & _ & _ & Herror & _).
  split; [exact Hplaying | exact Herror].
Defined.

(** ** The queue *)

(** X12: [loadPlaylist] in queue mode builds the new queue from the queue ref,
    which follows the state only at the next commit: of two calls with the
    default position between which no commit ran, the second one overwrites
    the first, and with a commit between them both playlists are queued, in
    the order of the calls. *)
Theorem loadPlaylist_queue_twice (w : world) (A B : list object) :
  A <> [] -> B <> [] ->
  queue (st (final ((loadPlaylist (Some A) queue_mode ;;;
                     loadPlaylist (Some B) queue_mode) w)))
  = (queueRef w ++ [B])%list
  /\ queue (st (final ((loadPlaylist (Some A) queue_mode ;;; commit ;;;
                        loadPlaylist (Some B) queue_mode) w)))
     = (queueRef w ++ [A; B])%list.
Proof.
  intros HA HB. destruct A as [|a A]; [done|]. destruct B as [|b B]; [done|].
  unfold loadPlaylist, commit. run. simpl. split; [done|].
  destruct (currentPlaylist (st w)); simpl; by rewrite <- app_assoc.
Qed.

Lemma loadPlaylist_queue_twice_witness :
  queue (st (final ((loadPlaylist (Some [JHN_3_36]) queue_mode ;;;
                     loadPlaylist (Some [JHN_4_1_2]) queue_mode) initialWorld)))
  = [[JHN_4_1_2]]
  /\ queue (st (final ((loadPlaylist (Some [JHN_3_36]) queue_mode ;;; commit ;;;
                        loadPlaylist (Some [JHN_4_1_2]) queue_mode) initialWorld)))
     = [[JHN_3_36]; [JHN_4_1_2]].
Proof.
  apply (loadPlaylist_queue_twice initialWorld [JHN_3_36] [JHN_4_1_2]); discriminate.
Defined.

(** X13: [removeFromQueue] builds the new queue from the queue of the last
    render: the playlist at the index is taken out and the others keep their
    order, and with an index past the end the new queue is that queue as it
    is.  A playlist queued since the last render is therefore dropped by the
    call.  [clearQueue] empties the queue.  The rest of the state is
    untouched. *)
Theorem removeFromQueue_spec (w : world) (index : nat) :
  let w' := final (removeFromQueue index w) in
  (forall j, (j < index)%nat -> queue (st w') !! j = queue (rendered w) !! j)
  /\ (forall j, (index <= j)%nat -> queue (st w') !! j = queue (rendered w) !! S j)
  /\ ((length (queue (rendered w)) <= index)%nat -> queue (st w') = queue (rendered w))
  /\ ((index < length (queue (rendered w)))%nat ->
      S (length (queue (st w'))) = length (queue (rendered w)))
  /\ queue (st (final (clearQueue w))) = []
  /\ currentPlaylist (st w') = currentPlaylist (st w)
  /\ currentSegmentIndex (st w') = currentSegmentIndex (st w)
  /\ isPlaying (st w') = isPlaying (st w)
  /\ audioRef w' = audioRef w.
Proof.
  unfold removeFromQueue, clearQueue. run. simpl.
  split; [|split; [|split; [|split]]]; [| | | |by repeat split].
  - intros j Hj. destruct (decide (index <= length (queue (rendered w)))%nat).
    + rewrite lookup_app_l by (rewrite length_take; lia). by rewrite lookup_take_lt.
    + rewrite take_ge, drop_ge, app_nil_r by lia. done.
  - intros j Hj. destruct (decide (index <= length (queue (rendered w)))%nat).
    + rewrite lookup_app_r by (rewrite length_take; lia).
      rewrite length_take, lookup_drop. f_equal. lia.
    + rewrite take_ge, drop_ge, app_nil_r by lia.
      rewrite !lookup_ge_None_2 by lia. done.
  - intros Hge. by rewrite take_ge, drop_ge, app_nil_r by lia.
  - intros Hlt. rewrite length_app, length_take, length_drop. lia.
Qed.

(** Two playlists are queued and rendered, and the first one is removed; and
    a playlist queued after the last render is lost with the removal. *)
Lemma removeFromQueue_spec_witness :
  queue (st (final (removeFromQueue 0
                      (after (loadPlaylist (Some [JHN_3_36]) queue_mode ;;; commit ;;;
                              loadPlaylist (Some [JHN_4_1_2]) queue_mode ;;; commit)))))
    !! 0%nat
  = Some [JHN_4_1_2]
  /\ queue (st (final (removeFromQueue 0
                         (after (loadPlaylist (Some [JHN_3_36]) queue_mode ;;; commit ;;;
                                 loadPlaylist (Some [JHN_4_1_2]) queue_mode)))))
       !! 0%nat
     = None.
Proof.
  split.
  - exact (proj1 (proj2 (removeFromQueue_spec
                           (after (loadPlaylist (Some [JHN_3_36]) queue_mode ;;; commit ;;;
                                   loadPlaylist (Some [JHN_4_1_2]) queue_mode ;;; commit))
                           0))
                 0%nat (le_n 0)).
  - exact (proj1 (proj2 (removeFromQueue_spec
                           (after (loadPlaylist (Some [JHN_3_36]) queue_mode ;;; commit ;;;
                                   loadPlaylist (Some [JHN_4_1_2]) queue_mode))
                           0))
                 0%nat (le_n 0)).
Defined.

(** ** Segment end and playlist end *)

(** X14: when the segment after the active one is in another file than the
    one the element holds, the end of the active segment pauses the element,
    gives it the URL of the next segment and loads it, sets the loading flag,
    and keeps the start of the next segment for the [loadeddata] handler; the
    next segment becomes the current one of the state. *)
Theorem handleSegmentEnd_other_file (w : world) (a : Audio.t) (s2 : object) :
  audioRef w = Some a ->
  segmentMapRef w !! S (currentSegmentRef w) = Some s2 ->
  src_differs a (JS.get s2 "audioUrl") = true ->
  exists w' a',
    handleSegmentEnd w = Ret tt w'
    /\ audioRef w' = Some a'
    /\ Audio.src a' = String_of (JS.get s2 "audioUrl")
    /\ Audio.loads a' = S (Audio.loads a)
    /\ Audio.paused a' = true
    /\ isLoading (st w') = true
    /\ currentSegmentIndex (st w') = S (currentSegmentRef w)
    /\ pending w'
       = (pending w
          ++ [(Loadeddata,
               HandleLoaded (JS.add (JS.to_number (JS.get s2 "startTimestamp")) (Fin 0)))]
          ++ if isPlayingRef w then [(Timeout 50, TryPlayNext)] else [])%list.
Proof.
  intros Ha Hs2 Hsrc. pose proof (lookup_lt_Some _ _ _ Hs2) as Hlen.
  unfold handleSegmentEnd, pause_if_audio, loadSegmentAudio, audio_pause, audio_load_src.
  run.
  destruct (segmentMapRef w) as [|s0 rest] eqn:Hmap; [simpl in Hlen; lia|].
  rewrite Nat.add_1_r. case_decide; [|lia].
  repeat (rewrite Ha; simpl). rewrite Hmap, Hs2.
  replace (src_differs (Audio.set_paused true a) (JS.get s2 "audioUrl")) with true
    by by destruct (JS.get s2 "audioUrl").
  simpl. destruct (isPlayingRef w); simpl.
  - eexists _, _. split; [reflexivity|]. simpl. rewrite <- app_assoc. by repeat split.
  - eexists _, _. split; [reflexivity|]. simpl. by repeat split.
Qed.

Lemma handleSegmentEnd_other_file_witness :
  exists w' a',
    handleSegmentEnd (after (playing [JHN_3_1_3; JHN_4_1_2])) = Ret tt w'
    /\ audioRef w' = Some a'
    /\ Audio.src a' = JHN4_mp3
    /\ Audio.loads a' = 2%nat.
Proof.
  destruct (handleSegmentEnd_other_file (after (playing [JHN_3_1_3; JHN_4_1_2]))
              {| Audio.src := JHN3_mp3; Audio.currentTime := 0; Audio.paused := false;
                 Audio.readyState := 4; Audio.loads := 1 |}
              (enhance (Fin (0 + (9 - 0))) 1 JHN_4_1_2) eq_refl eq_refl eq_refl)
    as (w' & a' & Hrun & Ha' & Hsrc & Hloads & _).
  exists w', a'. repeat split; assumption.
Defined.

(** X15: when the last segment of the playlist ends and the queue is empty,
    playback stops: the element is paused, the state is neither playing nor
    paused, and the playlist, the segment index, the times and the queue stay
    as they are.  The playing ref is not reset. *)
Theorem handleSegmentEnd_last_segment (w : world) (a : Audio.t) :
  audioRef w = Some a ->
  segmentMapRef w <> [] ->
  S (currentSegmentRef w) = length (segmentMapRef w) ->
  queueRef w = [] ->
  handleSegmentEnd w
  = Ret tt (put_st (set_isPaused false (set_isPlaying false (st w)))
              (put_audioRef (Some (Audio.set_paused true a)) w)).
Proof.
  intros Ha Hm Hlast Hq.
  unfold handleSegmentEnd, pause_if_audio, handlePlaylistEnd, audio_pause. run.
  destruct (segmentMapRef w) as [|s0 rest] eqn:Hmap; [done|].
  rewrite Nat.add_1_r. case_decide; [lia|].
  repeat (rewrite ?Ha, ?Hq; simpl). done.
Qed.

Lemma handleSegmentEnd_last_segment_witness :
  handleSegmentEnd (after (playing [JHN_3_36]))
  = Ret tt (put_st (set_isPaused false (set_isPlaying false (st (after (playing [JHN_3_36])))))
              (put_audioRef
                 (Some (Audio.set_paused true
                          {| Audio.src := JHN3_mp3; Audio.currentTime := 40;
                             Audio.paused := false; Audio.readyState := 4;
                             Audio.loads := 1 |}))
                 (after (playing [JHN_3_36])))).
Proof.
  apply (handleSegmentEnd_last_segment (after (playing [JHN_3_36]))
           {| Audio.src := JHN3_mp3; Audio.currentTime := 40; Audio.paused := false;
              Audio.readyState := 4; Audio.loads := 1 |}); [reflexivity | | reflexivity..].
  discriminate.
Defined.

(** X16: at the end of a playlist, when the head of the queue starts in
    another file than the one the element holds, the head leaves the queue
    and becomes the playlist of the state with segment 0 and time 0, its file
    is loaded, [audio.play()] is called and the handler that sets the playing
    flag is registered. *)
Theorem handlePlaylistEnd_other_file (w : world) (a : Audio.t) (first : object)
    (nextPlaylist : list object) (remainingQueue : list (list object)) :
  audioRef w = Some a ->
  queueRef w = (first :: nextPlaylist) :: remainingQueue ->
  src_differs a (JS.get first "audioUrl") = true ->
  exists w' a',
    handlePlaylistEnd w = Ret tt w'
    /\ currentPlaylist (st w') = Some (first :: nextPlaylist)
    /\ queue (st w') = remainingQueue
    /\ currentSegmentIndex (st w') = 0%nat
    /\ currentTime (st w') = Fin 0
    /\ audioRef w' = Some a'
    /\ Audio.src a' = String_of (JS.get first "audioUrl")
    /\ Audio.loads a' = S (Audio.loads a)
    /\ Audio.paused a' = false
    /\ (PlayFulfilled, QueuedThen) ∈ pending w'
    /\ isPlaying (st (final (run_task QueuedThen w'))) = true.
Proof.
  intros Ha Hq Hsrc.
  unfold handlePlaylistEnd, loadSegmentAudio, audio_play, audio_load_src. run.
  repeat (rewrite ?Ha, ?Hq, ?Hsrc; simpl).
  eexists _, _. split; [reflexivity|]. simpl. repeat split; try done.
  rewrite !elem_of_app, !list_elem_of_singleton. tauto.
Qed.

Lemma handlePlaylistEnd_other_file_witness :
  exists w' a',
    handlePlaylistEnd (after (playing [JHN_3_1_3] ;;;
                              loadPlaylist (Some [JHN_4_1_2]) queue_mode ;;; commit))
    = Ret tt w'
    /\ currentPlaylist (st w') = Some [JHN_4_1_2]
    /\ queue (st w') = []
    /\ audioRef w' = Some a'
    /\ Audio.src a' = JHN4_mp3.
Proof.
  destruct (handlePlaylistEnd_other_file
              (after (playing [JHN_3_1_3] ;;;
                      loadPlaylist (Some [JHN_4_1_2]) queue_mode ;;; commit))
              {| Audio.src := JHN3_mp3; Audio.currentTime := 0; Audio.paused := false;
                 Audio.readyState := 4; Audio.loads := 1 |}
              JHN_4_1_2 [] [] eq_refl eq_refl eq_refl)
    as (w' & a' & Hrun & Hpl & Hq & _ & _ & Ha' & Hsrc & _).
  exists w', a'. repeat split; assumption.
Defined.

(** ** Loading a playlist and committing *)

(** X17: [loadPlaylist] with a playlist that is not empty and a mode other
    than "queue" (["replace"], the default, or any other string) makes the
    playlist the current one, at segment 0 and at the times 0, neither
    playing nor paused and without error, with the total duration and the
    segment map built from it; the queue becomes the queue of the last
    render, or the empty queue when [clearQueue] is set.  This holds also
    when positioning the element fails. *)
Theorem loadPlaylist_replace (w : world) (d : object) (rest : list object)
    (options : Options.t) :
  Options.mode options <> Some "queue" ->
  let w' := final (loadPlaylist (Some (d :: rest)) options w) in
  currentPlaylist (st w') = Some (d :: rest)
  /\ currentSegmentIndex (st w') = 0%nat
  /\ currentTime (st w') = Fin 0
  /\ virtualTime (st w') = Fin 0
  /\ totalDuration (st w') = totalDuration_of (buildSegmentMap (Some (d :: rest)))
  /\ isPlaying (st w') = false
  /\ isPaused (st w') = false
  /\ error (st w') = None
  /\ queue (st w')
     = (if default false (Options.clearQueue options) then [] else queue (rendered w))
  /\ segmentMapRef w' = buildSegmentMap (Some (d :: rest))
  /\ (Audio.paused <$> audioRef w') = ((fun _ => true) <$> audioRef w).
Proof.
  intros Hmode w'. unfold w', loadPlaylist.
  assert (String.eqb (default "replace" (Options.mode options)) "queue" = false) as ->.
  { apply String.eqb_neq. destruct (Options.mode options) as [m|]; simpl; [|done].
    intros ->. by apply Hmode. }
  unfold pause_if_audio, loadSegmentAudio, audio_pause, audio_seek, audio_load_src. run.
  destruct (audioRef w) as [a|] eqn:Ha; simpl; repeat (rewrite ?Ha; simpl).
  - destruct (src_differs _ _); simpl.
    + destruct (default false (Options.autoPlay options)); simpl; by repeat split.
    + destruct (JS.add _ _); simpl; repeat (rewrite ?Ha; simpl); [|by repeat split].
      destruct (default false (Options.autoPlay options)); simpl; by repeat split.
  - destruct (default false (Options.autoPlay options)); simpl; rewrite ?Ha;
      by repeat split.
Qed.

(** A playlist is queued and, before the next render, another one is loaded
    in replace mode: the queue of the state is the one of the last render,
    without the queued playlist. *)
Lemma loadPlaylist_replace_witness :
  let w := after (playing [JHN_3_1_3] ;;; loadPlaylist (Some [JHN_4_1_2]) queue_mode) in
  let w' := final (loadPlaylist (Some [JHN_3_16_17; JHN_3_36]) Options.empty w) in
  queue (st w) = [[JHN_4_1_2]]
  /\ currentPlaylist (st w') = Some [JHN_3_16_17; JHN_3_36]
  /\ isPlaying (st w') = false
  /\ queue (st w') = []
  /\ segmentMapRef w' = buildSegmentMap (Some [JHN_3_16_17; JHN_3_36]).
Proof.
  cbv zeta. split; [reflexivity|].
  destruct (loadPlaylist_replace
              (after (playing [JHN_3_1_3] ;;; loadPlaylist (Some [JHN_4_1_2]) queue_mode))
              JHN_3_16_17 [JHN_3_36] Options.empty ltac:(discriminate))
    as (Hpl & _ & _ & _ & _ & Hplaying & _ & _ & Hq & Hmap & _).
  split; [exact Hpl|]. split; [exact Hplaying|]. split; [exact Hq | exact Hmap].
Defined.

(** X18: after the effects of a commit the refs agree with the state: the
    playlist ref, the segment ref and the queue ref hold the playlist, the
    segment index and the queue of the state, and when there is a playlist the
    segment map is the one built from it and the total duration is its total.
    Running the effects again changes nothing. *)
Theorem commit_syncs (w : world) :
  let w' := final (commit w) in
  commit w = Ret tt w'
  /\ playlistRef w' = currentPlaylist (st w')
  /\ currentSegmentRef w' = currentSegmentIndex (st w')
  /\ queueRef w' = queue (st w')
  /\ (forall playlist, currentPlaylist (st w) = Some playlist ->
        segmentMapRef w' = buildSegmentMap (Some playlist)
        /\ totalDuration (st w') = totalDuration_of (buildSegmentMap (Some playlist)))
  /\ (currentPlaylist (st w) = None -> segmentMapRef w' = segmentMapRef w)
  /\ commit w' = Ret tt w'.
Proof.
  unfold commit. run. destruct w as [[pl q ? ? ? ? ? ? ? ? ? ? ?] ? ? ? ? ? ? ? ? ? ? ?].
  simpl. destruct pl as [playlist|]; simpl.
  - repeat split; try done; by simplify_eq.
  - repeat split; done.
Qed.

Lemma commit_syncs_witness :
  segmentMapRef (final (commit (final (loadPlaylist (Some [JHN_3_36]) queue_mode
                                         (after (playing [JHN_3_1_3]))))))
  = buildSegmentMap (Some [JHN_3_1_3])
  /\ queueRef (final (commit (final (loadPlaylist (Some [JHN_3_36]) queue_mode
                                       (after (playing [JHN_3_1_3]))))))
     = [[JHN_3_36]].
Proof.
  destruct (commit_syncs (final (loadPlaylist (Some [JHN_3_36]) queue_mode
                                   (after (playing [JHN_3_1_3])))))
    as (_ & _ & _ & Hq & Hmap & _).
  split.
  - exact (proj1 (Hmap [JHN_3_1_3] eq_refl)).
  - exact Hq.
Defined.

(** ** The virtual clock and the time updates *)

(** X19: within a segment the virtual time does not decrease when the real
    time of the element grows. *)
Theorem calculateVirtualTime_monotone (w : world) (a : Audio.t) (s : object)
    (vs t r1 r2 : Q) :
  audioRef w = Some a ->
  segmentMapRef w !! currentSegmentRef w = Some s ->
  JS.get s "virtualStart" = VNum (Fin vs) ->
  JS.get s "startTimestamp" = VNum (Fin t) ->
  (r1 <= r2)%Q ->
  exists v1 v2,
    calculateVirtualTime (put_audioRef (Some (Audio.set_currentTime r1 a)) w) = Fin v1
    /\ calculateVirtualTime (put_audioRef (Some (Audio.set_currentTime r2 a)) w) = Fin v2
    /\ (v1 <= v2)%Q.
Proof.
  intros Ha Hs Hvs Ht Hr. unfold calculateVirtualTime. simpl. rewrite Hs, Hvs, Ht. simpl.
  destruct (Qle_bool 0 (vs + (r1 - t))) eqn:H1; destruct (Qle_bool 0 (vs + (r2 - t))) eqn:H2;
    eexists _, _; (split; [reflexivity|]); (split; [reflexivity|]).
  - lra.
  - apply Qle_bool_iff in H1. apply Qle_bool_false in H2. lra.
  - by apply Qle_bool_iff in H2.
  - lra.
Qed.

Lemma calculateVirtualTime_monotone_witness :
  exists v1 v2,
    calculateVirtualTime
      (put_audioRef (Some (Audio.set_currentTime 12
                             {| Audio.src := JHN3_mp3; Audio.currentTime := 10;
                                Audio.paused := false; Audio.readyState := 4;
                                Audio.loads := 1 |}))
         (after (playing [JHN_3_16_17; JHN_3_36]))) = Fin v1
    /\ calculateVirtualTime
         (put_audioRef (Some (Audio.set_currentTime 15
                                {| Audio.src := JHN3_mp3; Audio.currentTime := 10;
                                   Audio.paused := false; Audio.readyState := 4;
                                   Audio.loads := 1 |}))
            (after (playing [JHN_3_16_17; JHN_3_36]))) = Fin v2
    /\ (v1 <= v2)%Q.
Proof.
  apply (calculateVirtualTime_monotone (after (playing [JHN_3_16_17; JHN_3_36]))
           {| Audio.src := JHN3_mp3; Audio.currentTime := 10; Audio.paused := false;
              Audio.readyState := 4; Audio.loads := 1 |}
           (enhance (Fin 0) 0 JHN_3_16_17) 0 10 12 15); try reflexivity.
  discriminate.
Defined.

(** X20: outside a seek, a time update before the end of the active segment
    only records the real time of the element and the virtual time computed
    from it, in the state and in the virtual time ref: the segment, the
    element and the registered closures are untouched. *)
Theorem handleTimeUpdate_before_end (w : world) (a : Audio.t) (s : object) (e : Q) :
  isSeekingRef w = false ->
  audioRef w = Some a ->
  segmentMapRef w !! currentSegmentRef w = Some s ->
  JS.get s "endTimestamp" = VNum (Fin e) ->
  (Audio.currentTime a < e)%Q ->
  handleTimeUpdate w
  = Ret tt (put_virtualTimeRef (calculateVirtualTime w)
              (put_st (set_virtualTime (calculateVirtualTime w)
                         (set_currentTime (Fin (Audio.currentTime a)) (st w))) w)).
Proof.
  intros Hseek Ha Hs He Hlt. unfold handleTimeUpdate. run.
  rewrite Hseek, Ha. simpl. rewrite Hs, He. simpl.
  apply Qle_bool_false in Hlt. by rewrite Hlt.
Qed.

Lemma handleTimeUpdate_before_end_witness :
  currentSegmentIndex
    (st (final (handleTimeUpdate
                  (after (playing [JHN_3_16_17; JHN_3_36] ;;; at_real_time 13)))))
  = 0%nat.
Proof.
  exact (f_equal (fun o => currentSegmentIndex (st (final o)))
           (handleTimeUpdate_before_end
              (after (playing [JHN_3_16_17; JHN_3_36] ;;; at_real_time 13))
              {| Audio.src := JHN3_mp3; Audio.currentTime := 13; Audio.paused := false;
                 Audio.readyState := 4; Audio.loads := 1 |}
              (enhance (Fin 0) 0 JHN_3_16_17) 20 eq_refl eq_refl eq_refl eq_refl eq_refl)).
Defined.

(** ** The verse resolver *)

Lemma span_app (p : ascii -> bool) (a b : string) :
  Re.all p a = true ->
  (forall c r, b = String c r -> p c = false) ->
  Re.span p (a +:+ b) = (a, b).
Proof.
  intros Ha Hb. induction a as [|c a IH]; simpl in *.
  - destruct b as [|c r]; [done|]. simpl. by rewrite (Hb c r eq_refl).
  - apply andb_true_iff in Ha as [Hc Ha]. by rewrite Hc, (IH Ha).
Qed.

Lemma is_digit_not_space (c : ascii) : Re.is_digit c = true -> Re.is_space c = false.
Proof.
  unfold Re.is_digit, Re.is_space. intros H. apply bool_decide_eq_true in H.
  rewrite !orb_false_iff, !bool_decide_eq_false. lia.
Qed.

Lemma is_digit_is_alnum (c : ascii) : Re.is_digit c = true -> Re.is_alnum c = true.
Proof. unfold Re.is_alnum. intros ->. by rewrite orb_true_r. Qed.

(** X21: a reference written as a book code of letters and digits, one
    space, a chapter of decimal digits, a colon and a verse specification
    without line break is matched by the expression of [getCurrentVerse],
    which gives back the book, the chapter and the verse specification. *)
Theorem match_reference_round_trip (book chapter verseSpec : string) :
  book <> "" -> Re.all Re.is_alnum book = true ->
  chapter <> "" -> Re.all Re.is_digit chapter = true ->
  verseSpec <> "" -> Re.all (fun c => negb (Re.is_newline c)) verseSpec = true ->
  Re.match_reference (book +:+ " " +:+ chapter +:+ ":" +:+ verseSpec)
  = Some (book, chapter, verseSpec).
Proof.
  intros Hb Hbook Hc Hchapter Hv Hverses. unfold Re.match_reference.
  rewrite (span_app Re.is_alnum book); [|done|by intros c r [= <- _]].
  rewrite (span_app Re.is_space " " (chapter +:+ ":" +:+ verseSpec)); [|done|].
  2:{ intros c r Hcr. destruct chapter as [|c' chapter']; [done|].
      simpl in Hcr, Hchapter. injection Hcr as <- _.
      apply andb_true_iff in Hchapter as [Hc' _]. by apply is_digit_not_space. }
  rewrite (span_app Re.is_digit chapter); [|done|by intros c r [= <- _]].
  destruct book as [|b0 book']; [done|]. destruct chapter as [|c0 chapter']; [done|].
  destruct verseSpec as [|v0 verseSpec']; [done|]. simpl.
  simpl in Hverses. by rewrite Hverses.
Qed.

Lemma match_reference_round_trip_witness :
  Re.match_reference ("1JN" +:+ " " +:+ "4" +:+ ":" +:+ "7-8,16") = Some ("1JN", "4", "7-8,16").
Proof.
  apply (match_reference_round_trip "1JN" "4" "7-8,16"); (discriminate || reflexivity).
Defined.

(** X22: [getCurrentVerse] returns [null] when there is no current segment
    and when the current segment has no timing data or no timestamps,
    whatever its reference; with timestamps and a reference that is not a
    string it fails with a [TypeError]. *)
Theorem getCurrentVerse_edges (w : world) :
  (getCurrentSegment w = None -> getCurrentVerse w = Ret None w)
  /\ (forall segment,
         getCurrentSegment w = Some segment ->
         JS.truthy (JS.get segment "timingData") = false
         \/ JS.truthy (JS.prop (JS.get segment "timingData") "timestamps") = false ->
         getCurrentVerse w = Ret None w)
  /\ (forall segment,
         getCurrentSegment w = Some segment ->
         JS.truthy (JS.get segment "timingData") = true ->
         JS.truthy (JS.prop (JS.get segment "timingData") "timestamps") = true ->
         (forall reference, JS.get segment "reference" <> VStr reference) ->
         getCurrentVerse w = Throw "TypeError" w).
Proof.
  unfold getCurrentVerse. run. unfold id. repeat split.
  - by intros ->.
  - intros segment -> [-> | ->]; [done | by rewrite orb_true_r].
  - intros segment -> -> -> Href. simpl.
    destruct (JS.get segment "reference") as [| | |reference| |]; try done.
    by destruct (Href reference).
Qed.

Lemma getCurrentVerse_edges_witness :
  getCurrentVerse initialWorld = Ret None initialWorld
  /\ getCurrentVerse (after (loaded [<["timingData" := VNull]> JHN_3_36]))
     = Ret None (after (loaded [<["timingData" := VNull]> JHN_3_36]))
  /\ getCurrentVerse (after (loaded [delete "reference" JHN_3_36]))
     = Throw "TypeError" (after (loaded [delete "reference" JHN_3_36])).
Proof.
  split; [|split].
  - apply (proj1 (getCurrentVerse_edges initialWorld)). reflexivity.
  - apply (proj1 (proj2 (getCurrentVerse_edges
                           (after (loaded [<["timingData" := VNull]> JHN_3_36]))))
             (enhance (Fin 0) 0 (<["timingData" := VNull]> JHN_3_36))).
    + reflexivity.
    + left. reflexivity.
  - apply (proj2 (proj2 (getCurrentVerse_edges
                           (after (loaded [delete "reference" JHN_3_36]))))
             (enhance (Fin 0) 0 (delete "reference" JHN_3_36))).
    + reflexivity.
    + reflexivity.
    + reflexivity.
    + intros reference. discriminate.
Defined.

(** ** Timestamps of a built segment *)

(** X23: for a well timed descriptor whose first timestamp is not negative,
    the builder stores finite start and end timestamps and a duration equal
    to their difference. *)
Theorem enhance_duration_is_end_minus_start (d : object) (qs : list Q) (c : number)
    (i : nat) :
  finite_timestamps d = Some qs ->
  well_timed d = true ->
  (forall q, head qs = Some q -> (0 <= q)%Q) ->
  exists t e dq,
    JS.get (enhance c i d) "startTimestamp" = VNum (Fin t)
    /\ JS.get (enhance c i d) "endTimestamp" = VNum (Fin e)
    /\ JS.get (enhance c i d) "duration" = VNum (Fin dq)
    /\ (dq == e - t)%Q.
Proof.
  intros Hqs Hwt Hfirst. unfold well_timed in Hwt. rewrite Hqs in Hwt.
  unfold finite_timestamps in Hqs. apply mapM_number_value in Hqs.
  rewrite enhance_startTimestamp, enhance_duration.
  assert (JS.get (enhance c i d) "endTimestamp"
          = JS.or (JS.last (timestamps_of d))
                  (JS.or (JS.nth (timestamps_of d) 0) (VNum (Fin 0)))) as ->.
  { unfold JS.get, enhance. do 3 rewrite lookup_insert_ne by done.
    by rewrite lookup_insert_eq. }
  rewrite Hqs. unfold segmentDuration_of.
  destruct qs as [|q rest].
  { exists 0%Q, 0%Q, 0%Q. repeat split; try done. }
  specialize (Hfirst q eq_refl). apply Qle_bool_iff in Hwt.
  rewrite JS_last_numbers. unfold JS.or, JS.nth. simpl.
  destruct (Qeq_bool q 0) eqn:Hq0; destruct (Qeq_bool (List.last rest q) 0) eqn:Hl0; simpl;
    rewrite ?Hq0; simpl;
    try apply Qeq_bool_iff in Hq0; try apply Qeq_bool_iff in Hl0;
    (destruct rest as [|r rest']; simpl length; case_decide; try lia;
     eexists _, _, _; (split; [reflexivity|]); (split; [reflexivity|]);
     (split; [reflexivity|]); simpl in *; try lra).
Qed.

Lemma enhance_duration_is_end_minus_start_witness :
  exists t e dq,
    JS.get (enhance (Fin 0) 0 JHN_3_16_17) "startTimestamp" = VNum (Fin t)
    /\ JS.get (enhance (Fin 0) 0 JHN_3_16_17) "endTimestamp" = VNum (Fin e)
    /\ JS.get (enhance (Fin 0) 0 JHN_3_16_17) "duration" = VNum (Fin dq)
    /\ (dq == e - t)%Q.
Proof.
  apply (enhance_duration_is_end_minus_start JHN_3_16_17 [10; 15; 20]%Q (Fin 0) 0).
  - reflexivity.
  - reflexivity.
  - intros q [= <-]. discriminate.
Defined.

(** ** The segment marks of the player bar *)

Lemma marks_from_elem (m : list object) (T : number) :
  forall (i0 : nat) (p : number) (i : nat),
    (p, i) ∈ marks_from i0 m T ->
    exists k s, i = (i0 + k)%nat /\ m !! k = Some s /\ JS.lt (Fin 0) T = true
                /\ p = JS_mul (JS_div (JS.to_number (JS.get s "virtualStart")) T) (Fin 100).
Proof.
  induction m as [|s0 m IH]; intros i0 p i Hin; [by apply elem_of_nil in Hin|].
  assert ((p, i) ∈ marks_from (S i0) m T ->
          exists k s, i = (i0 + k)%nat /\ (s0 :: m) !! k = Some s /\ JS.lt (Fin 0) T = true
                      /\ p = JS_mul (JS_div (JS.to_number (JS.get s "virtualStart")) T)
                                    (Fin 100)) as Hrest.
  { intros H. destruct (IH _ _ _ H) as (k & s & -> & Hk & HT & Hp).
    exists (S k), s. split; [lia|]. split; [done|]. by split. }
  cbn [marks_from] in Hin. destruct (JS.lt (Fin 0) T) eqn:HT.
  2:{ apply Hrest. by destruct (JS.get s0 "virtualStart"). }
  destruct (JS.get s0 "virtualStart") eqn:Hvs; [exact (Hrest Hin)|..];
    (apply elem_of_cons in Hin as [[= -> ->] | Hin]; [|exact (Hrest Hin)]);
    exists 0%nat, s0; rewrite Nat.add_0_r, Hvs; done.
Qed.

Lemma marks_from_none (m : list object) (T : number) :
  JS.lt (Fin 0) T = false -> forall i0, marks_from i0 m T = [].
Proof.
  intros HT. induction m as [|s0 m IH]; intros i0; [done|].
  cbn [marks_from]. rewrite HT, IH. by destruct (JS.get s0 "virtualStart").
Qed.

(** X24: for the segment map built from a playlist of well timed descriptors
    and its total duration, every mark of the player bar has a position from
    0 to 100 and the index of a segment of the map; there is no mark at all
    unless the total duration is positive. *)
Theorem segmentMarks_in_bar (playlist : list object) (p : number) (i : nat) :
  Forall (fun d => well_timed d = true) playlist ->
  let segmentMap := buildSegmentMap (Some playlist) in
  (p, i) ∈ segmentMarks segmentMap (totalDuration_of segmentMap) ->
  (i < length segmentMap)%nat
  /\ (exists q, p = Fin q /\ (0 <= q)%Q /\ (q <= 100)%Q)
  /\ forall m, segmentMarks m (Fin 0) = [] /\ segmentMarks m NaN = [].
Proof.
  intros Hwt segmentMap Hin.
  cut ((i < length segmentMap)%nat /\ exists q, p = Fin q /\ (0 <= q)%Q /\ (q <= 100)%Q).
  { intros [? ?]. split; [done|]. split; [done|]. intros m.
    split; by apply marks_from_none. }
  unfold segmentMarks in Hin.
  destruct (marks_from_elem _ _ _ _ _ Hin) as (k & s & -> & Hk & HT & ->).
  split; [by apply lookup_lt_Some in Hk|].
  unfold segmentMap in *. rewrite buildSegmentMap_Some in *.
  destruct (map_segments_ordered playlist Hwt 0 0%nat k s Hk)
    as (vs & ve & T & Hvs & _ & HTeq & H0 & Hle1 & Hle2).
  rewrite Hvs. rewrite HTeq in *. simpl in HT |- *.
  apply negb_true_iff, Qle_bool_false in HT.
  assert (Qeq_bool T 0 = false) as ->.
  { destruct (Qeq_bool T 0) eqn:H; [|done]. apply Qeq_bool_iff in H. lra. }
  eexists. split; [reflexivity|].
  assert (0 <= vs / T)%Q as Hlo by (apply Qle_shift_div_l; lra).
  assert (vs / T <= 1)%Q as Hhi by (apply Qle_shift_div_r; lra).
  revert Hlo Hhi. generalize (vs / T)%Q. intros x Hlo Hhi. split; lra.
Qed.

Lemma segmentMarks_in_bar_witness :
  (1 < length (buildSegmentMap (Some [JHN_3_16_17; JHN_3_36])))%nat
  /\ exists q, JS_mul (JS_div (Fin (0 + (20 - 10))) (Fin (0 + (20 - 10) + (48 - 40))))
                      (Fin 100) = Fin q
               /\ (0 <= q)%Q /\ (q <= 100)%Q.
Proof.
  cut (Forall (fun d => well_timed d = true) [JHN_3_16_17; JHN_3_36]
       /\ (JS_mul (JS_div (Fin (0 + (20 - 10))) (Fin (0 + (20 - 10) + (48 - 40))))
                   (Fin 100), 1%nat)
           ∈ segmentMarks (buildSegmentMap (Some [JHN_3_16_17; JHN_3_36]))
               (totalDuration_of (buildSegmentMap (Some [JHN_3_16_17; JHN_3_36])))).
  { intros [Hwt Hin].
    destruct (segmentMarks_in_bar [JHN_3_16_17; JHN_3_36] _ _ Hwt Hin) as (Hi & Hq & _).
    split; [exact Hi | exact Hq]. }
  split.
  - repeat constructor.
  - apply list_elem_of_further, list_elem_of_here.
Defined.

(** ** The verse resolver outside the timestamps *)







(** ** Detection of the end of a segment *)

(** X26: outside a seek, a time update at or after the end timestamp of the
    active segment records the times and then runs the segment end. *)
Theorem handleTimeUpdate_at_end (w : world) (a : Audio.t) (s : object) (e : Q) :
  isSeekingRef w = false ->
  audioRef w = Some a ->
  segmentMapRef w !! currentSegmentRef w = Some s ->
  JS.get s "endTimestamp" = VNum (Fin e) ->
  (e <= Audio.currentTime a)%Q ->
  handleTimeUpdate w
  = handleSegmentEnd
      (put_virtualTimeRef (calculateVirtualTime w)
         (put_st (set_virtualTime (calculateVirtualTime w)
                    (set_currentTime (Fin (Audio.currentTime a)) (st w))) w)).
Proof.
  intros Hseek Ha Hs He Hle. unfold handleTimeUpdate. run.
  rewrite Hseek, Ha. simpl. rewrite Hs, He. simpl.
  apply Qle_bool_iff in Hle. by rewrite Hle.
Qed.

Lemma handleTimeUpdate_at_end_witness :
  currentSegmentIndex
    (st (final (handleTimeUpdate
                  (after (playing [JHN_3_16_17; JHN_3_36] ;;; at_real_time 20)))))
  = 1%nat.
Proof.
  exact (eq_trans
           (f_equal (fun o => currentSegmentIndex (st (final o)))
              (handleTimeUpdate_at_end
                 (after (playing [JHN_3_16_17; JHN_3_36] ;;; at_real_time 20))
                 {| Audio.src := JHN3_mp3; Audio.currentTime := 20; Audio.paused := false;
                    Audio.readyState := 4; Audio.loads := 1 |}
                 (enhance (Fin 0) 0 JHN_3_16_17) 20
                 eq_refl eq_refl eq_refl eq_refl ltac:(discriminate)))
           eq_refl).
Defined.

Lemma handleSegmentEnd_advances (w : world) (a : Audio.t) (s2 : object) :
  audioRef w = Some a ->
  segmentMapRef w !! S (currentSegmentRef w) = Some s2 ->
  currentSegmentIndex (st (final (handleSegmentEnd w))) = S (currentSegmentRef w)
  /\ segmentMapRef (final (handleSegmentEnd w)) = segmentMapRef w
  /\ currentSegmentRef (final (handleSegmentEnd w)) = currentSegmentRef w
  /\ exists a', audioRef (final (handleSegmentEnd w)) = Some a'.
Proof.
  intros Ha Hs2. pose proof (lookup_lt_Some _ _ _ Hs2) as Hlen.
  unfold handleSegmentEnd, pause_if_audio, loadSegmentAudio, audio_pause, audio_seek,
    audio_load_src.
  run.
  destruct (segmentMapRef w) as [|s0 rest] eqn:Hmap; [simpl in Hlen; lia|].
  rewrite Nat.add_1_r. case_decide; [|lia].
  repeat (rewrite ?Ha, ?Hmap, ?Hs2; simpl).
  destruct (src_differs (Audio.set_paused true a) (JS.get s2 "audioUrl")); simpl.
  - destruct (isPlayingRef w); simpl; rewrite ?Hmap; by eauto.
  - destruct (JS.add _ _); simpl; repeat (rewrite ?Ha; simpl).
    + destruct (isPlayingRef w); simpl; rewrite ?Hmap; by eauto.
    + rewrite ?Hmap. by eauto.
Qed.

(** X27: two ends of the same segment signalled before the next commit (the
    [timeupdate] check and the [ended] event) advance the state by one
    segment, not by two. *)
Theorem handleSegmentEnd_twice (w : world) (a : Audio.t) (s2 : object) :
  audioRef w = Some a ->
  segmentMapRef w !! S (currentSegmentRef w) = Some s2 ->
  currentSegmentIndex (st (final ((handleSegmentEnd ;;; handleSegmentEnd) w)))
  = S (currentSegmentRef w).
Proof.
  intros Ha Hs2.
  destruct (handleSegmentEnd_advances w a s2 Ha Hs2) as (Hi & Hmap & Hcur & a' & Ha').
  unfold bind. destruct (handleSegmentEnd w) as [[] w1|e w1] eqn:Hfirst; simpl in *.
  - rewrite <- Hmap, <- Hcur in Hs2.
    destruct (handleSegmentEnd_advances w1 a' s2 Ha' Hs2) as (Hi' & _).
    by rewrite Hi', Hcur.
  - done.
Qed.

Lemma handleSegmentEnd_twice_witness :
  currentSegmentIndex
    (st (final ((handleSegmentEnd ;;; handleSegmentEnd)
                  (after (playing [JHN_3_1_3; JHN_3_16_17; JHN_3_36])))))
  = 1%nat.
Proof.
  apply (handleSegmentEnd_twice (after (playing [JHN_3_1_3; JHN_3_16_17; JHN_3_36]))
           {| Audio.src := JHN3_mp3; Audio.currentTime := 0; Audio.paused := false;
              Audio.readyState := 4; Audio.loads := 1 |}
           (enhance (Fin (0 + (9 - 0))) 1 JHN_3_16_17)); reflexivity.
Defined.
